(** * yBribe: the bribes context (src/contexts/useBribes.tsx)

    A shallow embedding of the reward aggregator: reward-token discovery,
    the per-user fetch, the next-period projection fetch, the two
    aggregation routines and the refresh cycle that chains them, together
    with the properties the specification states about them. *)

From Stdlib Require Import ZArith Ascii String List Lia Bool.
From stdpp Require Import base option list gmap strings fin_maps.

Local Open Scope Z_scope.

(** ** JavaScript values that travel through the batches *)

(** An entry of a [BigNumber[]] multicall result, or what indexing such an
    array yields: [undefined] when the index is past the end, [null] for a
    call that failed inside [tryAll], an ethers [BigNumber] (a signed
    integer of arbitrary size) for a decoded uint256. *)
Inductive jsval : Type :=
| JUndefined
| JNull
| JBig (z : Z).

(** An entry of a [string[][]] multicall result: the decoded address[], or
    [None] for the null of a call that failed. *)
Abbreviation addresses := (option (list string)).

#[global] Instance jsval_eq_dec : EqDecision jsval.
Proof. solve_decision. Defined.

(** A JavaScript number holding a period: an integer or NaN. *)
Inductive number : Type :=
| Num (z : Z)
| NaN.

(** Result of a computation that may throw (a rejected promise). *)
Inductive outcome (A : Type) : Type :=
| Ok (a : A)
| Throw.
Arguments Ok {A} a.
Arguments Throw {A}.

Definition obind {A B} (o : outcome A) (k : A → outcome B) : outcome B :=
  match o with
  | Ok a => k a
  | Throw => Throw
  end.

(** ** BigNumber methods used by the aggregation *)

Definition MAX_SAFE : Z := 2 ^ 53.

(** [x.toNumber()]: a TypeError on anything that is not a BigNumber, an
    overflow fault when the value needs more than 53 bits. *)
Definition toNumber (x : jsval) : outcome Z :=
  match x with
  | JBig z => if (Z.abs z <? MAX_SAFE) then Ok z else Throw
  | _ => Throw
  end.

(** [x.gt(0)]. *)
Definition gt0 (x : jsval) : outcome bool :=
  match x with
  | JBig z => Ok (0 <? z)
  | _ => Throw
  end.

(** [x.sub(y)]: exact integer subtraction; [y] goes through
    [BigNumber.from], which rejects null and undefined. *)
Definition sub (x y : jsval) : outcome jsval :=
  match x, y with
  | JBig a, JBig b => Ok (JBig (a - b))
  | _, _ => Throw
  end.

(** [n >= currentPeriod] on numbers: false as soon as one side is NaN. *)
Definition number_ge (n : Z) (m : number) : bool :=
  match m with
  | Num c => c <=? n
  | NaN => false
  end.

(** [m + k] on numbers that hold integers. The sum is written as the
    integer sum, which is what a double gives as long as it stays within
    53 bits; the statement that reads [nextPeriod] keeps to that range. *)
Definition number_add (m : number) (k : Z) : number :=
  match m with
  | Num c => Num (c + k)
  | NaN => NaN
  end.

(** ** Composite keys *)

Definition underscore : ascii := "_"%char.

(** [s.split('_')]: the pieces of [s] between the separators, in order;
    never the empty array. *)
Fixpoint split (sep : ascii) (s : string) : list string :=
  match s with
  | EmptyString => [EmptyString]
  | String c rest =>
      if Ascii.eqb c sep then EmptyString :: split sep rest
      else match split sep rest with
           | piece :: pieces => String c piece :: pieces
           | [] => [String c EmptyString]
           end
  end.

(** [const [gauge, token] = key.split('_')]: the first piece always exists,
    the second is undefined when the key has no separator. *)
Definition destructure_key (key : string) : string * option string :=
  let pieces := split underscore key in
  (List.nth 0 pieces EmptyString, pieces !! 1%nat).

(** Modelled from the spec: [allowanceKey] of utils/index.ts is not part of
    the sources at hand; the specification describes the composite key as
    the gauge address and the token address "encoded as a delimited
    string", decoded by splitting on the underscore. *)
Definition allowanceKey (gauge token : string) : string :=
  gauge +:+ String underscore token.

Fixpoint string_forall (p : ascii → bool) (s : string) : bool :=
  match s with
  | EmptyString => true
  | String c rest => p c && string_forall p rest
  end.

Definition is_hex_digit (c : ascii) : bool :=
  let n := nat_of_ascii c in
  ((48 <=? n)%nat && (n <=? 57)%nat)
  || ((65 <=? n)%nat && (n <=? 70)%nat)
  || ((97 <=? n)%nat && (n <=? 102)%nat).

(** An address as it is written: 0x and forty hexadecimal digits, each in
    either case. *)
Definition is_address (s : string) : bool :=
  match s with
  | String "0" (String "x" digits) =>
      (String.length digits =? 40)%nat && string_forall is_hex_digit digits
  | _ => false
  end.

Definition no_underscore (s : string) : bool :=
  string_forall (fun c => negb (Ascii.eqb c underscore)) s.

(** ** Data model *)

(** A gauge descriptor of the curve context: its address and the mutable
    list of reward tokens, absent until the first fetch fills it. *)
Record Gauge : Type := {
  gauge : string;
  rewardPerGauge : option (list string)
}.

(** The two interface descriptions a registry handle is built from. *)
Inductive Abi : Type := CURVE_BRIBE_V2 | CURVE_BRIBE_V3.

#[global] Instance Abi_eq_dec : EqDecision Abi.
Proof. solve_decision. Defined.

(** [new Contract(address, abi)]. *)
Record Contract : Type := {
  contract_address : string;
  contract_abi : Abi
}.

#[global] Instance Contract_eq_dec : EqDecision Contract.
Proof. solve_decision. Defined.

(** The read calls put in a batch, named after the contract methods. *)
Module Bribe.
Inductive call : Type :=
| current_period (c : Contract)
| rewards_per_gauge (c : Contract) (g : string)
| reward_per_token (c : Contract) (g t : string)
| active_period (c : Contract) (g t : string)
| claimable (c : Contract) (user g t : string)
| reward_per_gauge (c : Contract) (g t : string)
| claims_per_gauge (c : Contract) (g t : string).

#[global] Instance call_eq_dec : EqDecision call.
Proof. solve_decision. Defined.

(** The registry a call is addressed to. *)
Definition target (q : call) : Contract :=
  match q with
  | current_period c | rewards_per_gauge c _ | reward_per_token c _ _
  | active_period c _ _ | claimable c _ _ _ | reward_per_gauge c _ _
  | claims_per_gauge c _ _ => c
  end.

(** The calls of the per-user fetch (section 4.3 of the specification). *)
Definition per_user (q : call) : bool :=
  match q with
  | reward_per_token _ _ _ | active_period _ _ _ | claimable _ _ _ _ => true
  | _ => false
  end.
End Bribe.

(** A remote-node handle: the wallet's own, or the default one for a chain. *)
Inductive Provider : Type :=
| WalletProvider (id : nat)
| DefaultProvider (chainId : Z).

Definition getProvider (chainId : Z) : Provider := DefaultProvider chainId.

(** What [useWeb3()] hands over. *)
Record Web3 : Type := {
  provider : option Provider;
  isActive : bool;
  address : string
}.

(** The same connection seen from another account. *)
Definition with_address (web3 : Web3) (account : string) : Web3 :=
  {| provider := provider web3; isActive := isActive web3;
     address := account |}.

(** The network as the code sees it: whether a multicall provider can be
    set up, whether a batched request comes back, and what each read call
    decodes to under its interface description: a uint256 for the amount
    and period getters ([JNull] for a call that failed on its own), an
    address[] for [rewards_per_gauge] ([None] when it failed). *)
Record Chain : Type := {
  newEthCallProvider : Provider → bool;
  transport : list Bribe.call → bool;
  eth_call : Bribe.call → jsval;
  eth_call_addresses : Bribe.call → addresses
}.

(** The two-level mapping gauge → token → amount. *)
Abbreviation TCurveGaugeRewards := (gmap string (gmap string jsval)).

(** The published state of the context. *)
Record State : Type := {
  currentRewards : TCurveGaugeRewards;
  nextRewards : TCurveGaugeRewards;
  claimable : TCurveGaugeRewards;
  isLoading : bool;
  currentPeriod : number;
  nextPeriod : number
}.

Definition set_periods (st : State) (n : number) : State :=
  {| currentRewards := currentRewards st; nextRewards := nextRewards st;
     claimable := claimable st; isLoading := isLoading st;
     currentPeriod := n; nextPeriod := number_add n (86400 * 7) |}.

Definition set_nextRewards (st : State) (m : TCurveGaugeRewards) : State :=
  {| currentRewards := currentRewards st; nextRewards := m;
     claimable := claimable st; isLoading := isLoading st;
     currentPeriod := currentPeriod st; nextPeriod := nextPeriod st |}.

(** The three setters at the end of [assignBribes]. *)
Definition publish_bribes (st : State) (cur cla : TCurveGaugeRewards) : State :=
  {| currentRewards := cur; nextRewards := nextRewards st;
     claimable := cla; isLoading := false;
     currentPeriod := currentPeriod st; nextPeriod := nextPeriod st |}.

(** The state at mount. The two [useState] initialisers each call
    [getLastThursday()], one after the other: [lastThursday] is what the
    first call read off the clock, for [currentPeriod], and [lastThursday']
    what the second one read, for [nextPeriod]. *)
Definition initialState (lastThursday lastThursday' : Z) : State :=
  {| currentRewards := ∅; nextRewards := ∅; claimable := ∅;
     isLoading := true;
     currentPeriod := Num lastThursday;
     nextPeriod := Num (lastThursday' + 86400 * 7) |}.

(** ** The local estimate of the current period *)

Definition msPerDay : Z := 86400000.
Definition msPerHour : Z := 3600000.

(** [getLastThursday()], read at the instant [now] (milliseconds since the
    epoch) in a time zone that stays [tz] milliseconds east of UTC over the
    days involved. The local day number is counted from the epoch, which
    was a Thursday, so that [getDay()] is [(day + 4) mod 7] with 0 for
    Sunday; [setDate(getDate() - k)] is the same local time [k] days
    earlier; [setHours(-22, 0, 0, 0)] is 22 hours before the midnight that
    starts the day. *)
Definition getLastThursday (now tz : Z) : Z :=
  let local := now + tz in
  let day := local / msPerDay in
  let getDay := (day + 4) mod 7 in
  let day' := day - ((getDay + 6) mod 7) - 3 in
  let local' := day' * msPerDay + (- 22) * msPerHour in
  let getTime := local' - tz in
  getTime / 1000.

(** ** The world the fetches run in *)

(** The gauge descriptors are shared objects, mutated in place by the
    per-user fetch; [issued] records every batch handed to [tryAll], in
    order. *)
Record World : Type := {
  gauges : list Gauge;
  issued : list (list Bribe.call)
}.

Definition M (A : Type) : Type := World → outcome A * World.

Definition ret {A} (a : A) : M A := fun w => (Ok a, w).

Definition bind {A B} (m : M A) (k : A → M B) : M B := fun w =>
  match m w with
  | (Ok a, w') => k a w'
  | (Throw, w') => (Throw, w')
  end.

Notation "'let*' p ':=' m 'in' k" := (bind m (fun p => k))
  (at level 10, p pattern, m at level 100, k at level 200).

(** [Promise.all]: every member runs to its end, also when another one
    rejects; the whole rejects as soon as one did. Members resume in the
    order they were started. *)
Definition all2 {A B} (ma : M A) (mb : M B) : M (A * B) := fun w =>
  let '(ra, w1) := ma w in
  let '(rb, w2) := mb w1 in
  (match ra, rb with
   | Ok a, Ok b => Ok (a, b)
   | _, _ => Throw
   end, w2).

Definition all3 {A B C} (ma : M A) (mb : M B) (mc : M C) : M (A * B * C) :=
  fun w =>
  let '(ra, w1) := ma w in
  let '(rb, w2) := mb w1 in
  let '(rc, w3) := mc w2 in
  (match ra, rb, rc with
   | Ok a, Ok b, Ok c => Ok (a, b, c)
   | _, _, _ => Throw
   end, w3).

Definition providers_newEthCallProvider (chain : Chain) (p : Provider)
  : M unit := fun w =>
  if newEthCallProvider chain p then (Ok tt, w) else (Throw, w).

(** Reading the gauge descriptors of the curve context. *)
Definition useCurve_gauges : M (list Gauge) := fun w => (Ok (gauges w), w).

(** A synchronous stretch of code working on the gauge descriptors: they
    are left as [f] returns them. *)
Definition on_gauges {A} (f : list Gauge → list Gauge * A) : M A := fun w =>
  let '(gs, a) := f (gauges w) in
  (Ok a, {| gauges := gs; issued := issued w |}).

(** [ethcallProvider.tryAll(calls) as BigNumber[]]: one request, one
    result per call. *)
Definition tryAll (chain : Chain) (batch : list Bribe.call)
  : M (list jsval) := fun w =>
  let w' := {| gauges := gauges w; issued := issued w ++ [batch] |} in
  if transport chain batch then (Ok (map (eth_call chain) batch), w')
  else (Throw, w').

(** [ethcallProvider.tryAll(calls) as string[][]]: the same request, on a
    batch of calls that return address lists. *)
Definition tryAll_addresses (chain : Chain) (batch : list Bribe.call)
  : M (list addresses) := fun w =>
  let w' := {| gauges := gauges w; issued := issued w ++ [batch] |} in
  if transport chain batch
  then (Ok (map (eth_call_addresses chain) batch), w')
  else (Throw, w').

(** What a computation adds to the log: its batches come after those
    already there, and every call in them satisfies [P]. *)
Definition issues {A} (P : Bribe.call → Prop) (m : M A) : Prop :=
  ∀ w, ∃ batches,
    issued (snd (m w)) = issued w ++ batches ∧ Forall (Forall P) batches.

(** ** Mapping updates of the aggregation *)

Definition lookup2 (m : TCurveGaugeRewards) (G T : string) : option jsval :=
  match m !! G with
  | Some inner => inner !! T
  | None => None
  end.

(** [if (!m[G]) { m[G] = {}; }] *)
Definition ensure (m : TCurveGaugeRewards) (G : string) : TCurveGaugeRewards :=
  match m !! G with
  | Some _ => m
  | None => <[G := ∅]> m
  end.

(** [m[G][T] = v], once [m[G]] exists. *)
Definition assign (m : TCurveGaugeRewards) (G T : string) (v : jsval)
  : TCurveGaugeRewards :=
  match m !! G with
  | Some inner => <[G := <[T := v]> inner]> m
  | None => m
  end.

(** [xs[i]] on an array. *)
Definition at_index (xs : list jsval) (i : nat) : jsval :=
  default JUndefined (xs !! i).

Definition truthy (s : string) : bool :=
  match s with
  | EmptyString => false
  | _ => true
  end.

(** ['literal' || other] on strings. *)
Definition or_else (a b : string) : string := if truthy a then a else b.

(** An entry for the pair (G, T). *)
Definition has_entry (m : TCurveGaugeRewards) (G T : string) : Prop :=
  is_Some (lookup2 m G T).

Definition same_entries (m1 m2 : TCurveGaugeRewards) : Prop :=
  ∀ G T, has_entry m1 G T ↔ has_entry m2 G T.

(** A batch entry decoded from a uint256 return value. *)
Definition uint256 (v : jsval) : Prop :=
  ∃ z, v = JBig z ∧ 0 ≤ z < 2 ^ 256.

Definition is_BigNumber (v : jsval) : Prop := ∃ z, v = JBig z.

(** ** Sample data the statements below are exercised on *)

Module Sample.
(** A stand-in for [toAddress] that keeps a string as it is. *)
Definition toAddress (a : option string) : string :=
  default "0x0000000000000000000000000000000000000000" a.

Definition V2_ADDRESS : string := "0x7893bbb46613d7a4FbcC31Dab4C9b823FfeE1026".
Definition V3_ADDRESS : string := "0x03dFdBcD4056E2F92251c7B07423E1a33a7D3F6d".
Definition V2 : Contract :=
  {| contract_address := V2_ADDRESS; contract_abi := CURVE_BRIBE_V2 |}.
Definition V3 : Contract :=
  {| contract_address := V3_ADDRESS; contract_abi := CURVE_BRIBE_V3 |}.

Definition G1 : string := "0xDeFd8FdD20e0f34115C7018CCfb655796F6B2168".
Definition T1 : string := "0xd533a949740bb3306d119cc777fa900ba034cd52".

(** A chain on which only the V3 registry lists a token for the gauge. *)
Definition chain : Chain :=
  {| newEthCallProvider := fun _ => true;
     transport := fun _ => true;
     eth_call := fun q =>
       match q with
       | Bribe.current_period _ => JBig 1000
       | Bribe.rewards_per_gauge _ _ => JNull
       | Bribe.reward_per_token _ _ _ => JBig 100
       | Bribe.active_period _ _ _ => JBig 1000
       | Bribe.claimable _ _ _ _ => JBig 5
       | Bribe.reward_per_gauge _ _ _ => JBig 100
       | Bribe.claims_per_gauge _ _ _ => JBig 30
       end;
     eth_call_addresses := fun q =>
       match q with
       | Bribe.rewards_per_gauge c _ =>
           if decide (contract_abi c = CURVE_BRIBE_V3)
           then Some [T1] else Some []
       | _ => None
       end |}.

(** A chain whose requests all fail. *)
Definition offline : Chain :=
  {| newEthCallProvider := fun _ => false;
     transport := fun _ => false;
     eth_call := fun _ => JNull;
     eth_call_addresses := fun _ => None |}.

Definition wallet : Web3 :=
  {| provider := Some (WalletProvider 0); isActive := true;
     address := "0x52908400098527886E0F7030069857D2E4169EE7" |}.

Definition other_wallet : Web3 :=
  {| provider := Some (WalletProvider 0); isActive := true;
     address := "0xde709f2102306220921060314715629080e2fb77" |}.

Definition disconnected : Web3 :=
  {| provider := None; isActive := false; address := EmptyString |}.

Definition world : World :=
  {| gauges := [ {| gauge := G1; rewardPerGauge := None |} ];
     issued := [] |}.

Definition state : State := set_periods (initialState 0 0) (Num 1000).

(** [Number(...)] on the entries a period query gives back, for values
    a number holds exactly. *)
Definition Number_ (v : jsval) : number :=
  match v with
  | JBig z => Num z
  | JNull => Num 0
  | _ => NaN
  end.

Definition key : string := allowanceKey G1 T1.

(** A discovery result listing one token for the gauge. *)
Definition discovery : list addresses := [Some [T1]].

(** A chain on which the [active_period] calls fail. *)
Definition chain_without_periods : Chain :=
  {| newEthCallProvider := newEthCallProvider chain;
     transport := transport chain;
     eth_call := fun q =>
       match q with
       | Bribe.active_period _ _ _ => JNull
       | _ => eth_call chain q
       end;
     eth_call_addresses := eth_call_addresses chain |}.

(** A chain on which only the discovery batches come back. *)
Definition chain_dropping_fetches : Chain :=
  {| newEthCallProvider := newEthCallProvider chain;
     transport := fun batch =>
       match batch with
       | Bribe.rewards_per_gauge _ _ :: _ => true
       | _ => false
       end;
     eth_call := eth_call chain;
     eth_call_addresses := eth_call_addresses chain |}.

Definition gauge1 : Gauge := {| gauge := G1; rewardPerGauge := None |}.
End Sample.

(** ** The context itself *)

Section BribesContextApp.

(** [toAddress] of the web library: the checksummed form of an address,
    the zero address for anything else, undefined included. *)
Variable toAddress : option string → string.

(** [process.env.CURVE_BRIBE_V2_ADDRESS] and its V3 sibling. *)
Variable CURVE_BRIBE_V2_ADDRESS : string.
Variable CURVE_BRIBE_V3_ADDRESS : string.

(** JavaScript's [Number(...)] coercion of a batch entry. *)
Variable Number_ : jsval → number.

Definition curveBribeV2Contract : Contract :=
  {| contract_address := CURVE_BRIBE_V2_ADDRESS;
     contract_abi := CURVE_BRIBE_V2 |}.

Definition curveBribeV3Contract : Contract :=
  {| contract_address := CURVE_BRIBE_V3_ADDRESS;
     contract_abi := CURVE_BRIBE_V3 |}.

(** *** getSharedStuffFromBribes *)

Definition getSharedStuffFromBribes (chain : Chain) (web3 : Web3)
    (st : State) : M State :=
  let currentProvider := default (getProvider 1) (provider web3) in
  let* _ := providers_newEthCallProvider chain currentProvider in
  let* results := tryAll chain [Bribe.current_period curveBribeV3Contract] in
  let _currentPeriod := at_index results 0 in
  ret (set_periods st (Number_ _currentPeriod)).

(** *** getRewardsPerGauges *)

(** [!isActive || !provider || (list || []).length === 0] *)
Definition idle {A} (web3 : Web3) (list : list A) : bool :=
  negb (isActive web3)
  || match provider web3 with Some _ => false | None => true end
  || (length list =? 0)%nat.

Definition getRewardsPerGauges (chain : Chain) (web3 : Web3)
    (contract : Contract) : M (list addresses) :=
  let* gauges := useCurve_gauges in
  if idle web3 gauges then ret []
  else
    let currentProvider := default (getProvider 1) (provider web3) in
    let* _ := providers_newEthCallProvider chain currentProvider in
    let rewardsPerGaugesCalls :=
      map (fun g => Bribe.rewards_per_gauge contract (gauge g)) gauges in
    let* _rewardsPerGauges := tryAll_addresses chain rewardsPerGaugesCalls in
    ret _rewardsPerGauges.

(** *** getRewardsPerUser *)

Definition PLACEHOLDER : string :=
  "0xd63042a93525f33500c3a5c0387856d5a69bd1ec".

(** [rewardPerGauge && rewardPerGauge.length > 0]: the tokens to walk
    through, none when the entry is missing, null or an empty array. *)
Definition discovered (rewardPerGauge : option addresses) : list string :=
  match rewardPerGauge with
  | Some (Some tokens) => tokens
  | _ => []
  end.

(** [if (!g.rewardPerGauge) g.rewardPerGauge = [];
     g.rewardPerGauge.push(...tokens)] *)
Definition push_rewards (g : Gauge) (tokens : list string) : Gauge :=
  {| gauge := gauge g;
     rewardPerGauge := Some (default [] (rewardPerGauge g) ++ tokens) |}.

Definition user_calls (contract : Contract) (userAddress g t : string)
  : list Bribe.call :=
  [ Bribe.reward_per_token contract g t;
    Bribe.active_period contract g t;
    Bribe.claimable contract userAddress g t ].

(** The loop over the gauges: [shift] takes the head of what is left of
    the discovery result; the descriptors come back as the loop leaves
    them, with the keys and the calls in push order. *)
Fixpoint user_loop (contract : Contract) (userAddress : string)
    (gs : list Gauge) (_rewardsPerGauges : list addresses)
  : list Gauge * list string * list Bribe.call :=
  match gs with
  | [] => ([], [], [])
  | g :: gs' =>
      let rewardPerGauge := head _rewardsPerGauges in
      let '(gs'', rewardsList, calls) :=
        user_loop contract userAddress gs' (tail _rewardsPerGauges) in
      match discovered rewardPerGauge with
      | [] => (g :: gs'', rewardsList, calls)
      | tokens =>
          (push_rewards g tokens :: gs'',
           map (allowanceKey (gauge g)) tokens ++ rewardsList,
           flat_map (user_calls contract userAddress (gauge g)) tokens
             ++ calls)
      end
  end.

Definition getRewardsPerUser (chain : Chain) (web3 : Web3)
    (contract : Contract) (rewardsPerGauges : list addresses)
  : M (list string * list jsval) :=
  if idle web3 rewardsPerGauges then ret ([], [])
  else
    let userAddress := or_else PLACEHOLDER (address web3) in
    let currentProvider := default (getProvider 1) (provider web3) in
    let* _ := providers_newEthCallProvider chain currentProvider in
    let* (rewardsList, rewardsPerTokensPerGaugesCalls) :=
      on_gauges (fun gauges =>
        let '(gs, rewardsList, calls) :=
          user_loop contract userAddress gauges rewardsPerGauges in
        (gs, (rewardsList, calls))) in
    let* _rewardsPerTokensPerGaugesWithPeriods :=
      tryAll chain rewardsPerTokensPerGaugesCalls in
    ret (rewardsList, _rewardsPerTokensPerGaugesWithPeriods).

(** *** getNextPeriodRewards *)

Definition next_calls (contract : Contract) (g t : string)
  : list Bribe.call :=
  [ Bribe.reward_per_gauge contract g t;
    Bribe.claims_per_gauge contract g t ].

Fixpoint next_loop (contract : Contract)
    (gs : list Gauge) (_rewardsPerGauges : list addresses)
  : list string * list Bribe.call :=
  match gs with
  | [] => ([], [])
  | g :: gs' =>
      let rewardPerGauge := head _rewardsPerGauges in
      let '(rewardsList, calls) :=
        next_loop contract gs' (tail _rewardsPerGauges) in
      let tokens := discovered rewardPerGauge in
      (map (allowanceKey (gauge g)) tokens ++ rewardsList,
       flat_map (next_calls contract (gauge g)) tokens ++ calls)
  end.

Definition getNextPeriodRewards (chain : Chain) (web3 : Web3)
    (contract : Contract) (rewardsPerGauges : list addresses)
  : M (list string * list jsval) :=
  if idle web3 rewardsPerGauges then ret ([], [])
  else
    let currentProvider := default (getProvider 1) (provider web3) in
    let* _ := providers_newEthCallProvider chain currentProvider in
    let* gauges := useCurve_gauges in
    let '(rewardsList, rewardsPerTokensPerGaugesCalls) :=
      next_loop contract gauges rewardsPerGauges in
    let* multicallResult := tryAll chain rewardsPerTokensPerGaugesCalls in
    ret (rewardsList, multicallResult).

(** *** assignBribes *)

(** The three local tables of [assignBribes]. *)
Record Tables : Type := {
  _currentRewards : TCurveGaugeRewards;
  _claimable : TCurveGaugeRewards;
  _periods : TCurveGaugeRewards
}.

Definition no_tables : Tables :=
  {| _currentRewards := ∅; _claimable := ∅; _periods := ∅ |}.

(** The normalised (gauge, token) pair a key is filed under. *)
Definition key_pair (rewardListKey : string) : string * string :=
  let '(g, t) := destructure_key rewardListKey in
  (toAddress (Some g), toAddress t).

Definition record_bribe (rewardListKey : string) (r p c : jsval)
    (acc : Tables) : Tables :=
  let '(G, T) := key_pair rewardListKey in
  let cur := ensure (_currentRewards acc) G in
  let per := ensure (_periods acc) G in
  let cla := ensure (_claimable acc) G in
  {| _currentRewards := assign cur G T r;
     _claimable := assign cla G T c;
     _periods := assign per G T p |}.

(** One turn of the loop, on the three entries read for the key. *)
Definition bribes_step (currentPeriod : number) (rewardListKey : string)
    (rewardPerTokenPerGauge periodPerTokenPerGauge
     claimablePerTokenPerGauge : jsval) (acc : Tables) : outcome Tables :=
  obind (toNumber periodPerTokenPerGauge) (fun period =>
    if number_ge period currentPeriod then
      if truthy rewardListKey then
        obind (gt0 rewardPerTokenPerGauge) (fun positive =>
          if positive then
            Ok (record_bribe rewardListKey rewardPerTokenPerGauge
                  periodPerTokenPerGauge claimablePerTokenPerGauge acc)
          else Ok acc)
      else Ok acc
    else Ok acc).

Fixpoint bribes_loop (currentPeriod : number) (multicallResult : list jsval)
    (rewardsList : list string) (rIndex : nat) (acc : Tables)
  : outcome Tables :=
  match rewardsList with
  | [] => Ok acc
  | rewardListKey :: rest =>
      obind (bribes_step currentPeriod rewardListKey
               (at_index multicallResult rIndex)
               (at_index multicallResult (rIndex + 1))
               (at_index multicallResult (rIndex + 2)) acc)
            (fun acc' =>
               bribes_loop currentPeriod multicallResult rest
                 (rIndex + 3) acc')
  end.

(** The result array is an array by its type, so of the guard only the
    two length tests remain. *)
Definition assignBribes (st : State) (rewardsList : list string)
    (multicallResult : list jsval) : outcome State :=
  if (length multicallResult =? 0)%nat || (length rewardsList =? 0)%nat
  then Ok st
  else
    obind (bribes_loop (currentPeriod st) multicallResult rewardsList
             0 no_tables)
          (fun t => Ok (publish_bribes st (_currentRewards t) (_claimable t))).

(** *** assignNextRewards *)

Definition next_step (rewardListKey : string)
    (rewardPerTokenPerGauge claimsPerTokenPerGauge : jsval)
    (_nextRewards : TCurveGaugeRewards) : outcome TCurveGaugeRewards :=
  if truthy rewardListKey then
    let '(G, T) := key_pair rewardListKey in
    let table := ensure _nextRewards G in
    obind (sub rewardPerTokenPerGauge claimsPerTokenPerGauge)
          (fun pendingForNextPeriod =>
             Ok (assign table G T pendingForNextPeriod))
  else Ok _nextRewards.

Fixpoint next_rewards_loop (multicallResult : list jsval)
    (rewardsList : list string) (rIndex : nat)
    (_nextRewards : TCurveGaugeRewards) : outcome TCurveGaugeRewards :=
  match rewardsList with
  | [] => Ok _nextRewards
  | rewardListKey :: rest =>
      obind (next_step rewardListKey
               (at_index multicallResult rIndex)
               (at_index multicallResult (rIndex + 1)) _nextRewards)
            (fun table =>
               next_rewards_loop multicallResult rest (rIndex + 2) table)
  end.

Definition assignNextRewards (st : State) (rewardsList : list string)
    (multicallResult : list jsval) : outcome State :=
  if (length multicallResult =? 0)%nat || (length rewardsList =? 0)%nat
  then Ok st
  else
    obind (next_rewards_loop multicallResult rewardsList 0 ∅)
          (fun table => Ok (set_nextRewards st table)).

(** *** getBribes *)

(** A call made without awaiting it: when its promise rejects nothing
    was set, and the state is the one before the call. *)
Definition settled (st : State) (r : outcome State) : State :=
  match r with
  | Ok st' => st'
  | Throw => st
  end.

(** The cycle as one step on the published state [st], the one its
    closures were created in; other effects finishing while it is in
    flight are not interleaved with it. *)
Definition getBribes (chain : Chain) (web3 : Web3) (st : State) : M State :=
  let* (rewardsPerGaugesV2, rewardsPerGaugesV3) :=
    all2 (getRewardsPerGauges chain web3 curveBribeV2Contract)
         (getRewardsPerGauges chain web3 curveBribeV3Contract) in
  let* (rewardsPerUserV2, rewardsPerUserV3, nextPeriodRewardsV3) :=
    all3 (getRewardsPerUser chain web3 curveBribeV2Contract rewardsPerGaugesV2)
         (getRewardsPerUser chain web3 curveBribeV2Contract rewardsPerGaugesV3)
         (getNextPeriodRewards chain web3 curveBribeV3Contract
            rewardsPerGaugesV3) in
  let '(rewardsListV2, multicallResultV2) := rewardsPerUserV2 in
  let '(rewardsListV3, multicallResultV3) := rewardsPerUserV3 in
  let '(nextRewardsListV3, nextMulticallResultV3) := nextPeriodRewardsV3 in
  let st1 :=
    settled st (assignBribes st (rewardsListV2 ++ rewardsListV3)
                  (multicallResultV2 ++ multicallResultV3)) in
  let st2 :=
    settled st1 (assignNextRewards st1 nextRewardsListV3
                   nextMulticallResultV3) in
  ret st2.

(** The state a refresh leaves behind: untouched when the cycle rejected
    before the updates. *)
Definition refresh (chain : Chain) (web3 : Web3) (st : State) (w : World)
  : State * World :=
  let '(r, w') := getBribes chain web3 st w in (settled st r, w').

(** *** Reading the loops *)

(** Some key of the list, read with its triple from [rIndex] on, passes
    the two tests of [assignBribes] and is filed under (G, T). *)
Definition bribe_at (currentPeriod : number) (results : list jsval)
    (keys : list string) (rIndex : nat) (G T : string) : Prop :=
  ∃ (j : nat) key r p,
    keys !! j = Some key ∧ truthy key = true ∧ key_pair key = (G, T)
    ∧ at_index results (rIndex + 3 * j) = JBig r
    ∧ at_index results (rIndex + 3 * j + 1) = JBig p
    ∧ 0 < r ∧ number_ge p currentPeriod = true.

(** Some key of the list, read with its pair from [rIndex] on, is filed
    under (G, T) with the difference [v]. *)
Definition pending_at (results : list jsval) (keys : list string)
    (rIndex : nat) (G T : string) (v : jsval) : Prop :=
  ∃ (j : nat) key r c,
    keys !! j = Some key ∧ truthy key = true ∧ key_pair key = (G, T)
    ∧ at_index results (rIndex + 2 * j) = JBig r
    ∧ at_index results (rIndex + 2 * j + 1) = JBig c
    ∧ v = JBig (r - c).

(** *** Reading the fetches *)

(** The (gauge, token) pairs the two fetch loops walk through, in order:
    for each gauge the tokens of the discovery entry at its position. *)
Fixpoint discovered_pairs (gs : list Gauge) (rewardsPerGauges : list addresses)
  : list (string * string) :=
  match gs with
  | [] => []
  | g :: gs' =>
      map (pair (gauge g)) (discovered (head rewardsPerGauges))
      ++ discovered_pairs gs' (tail rewardsPerGauges)
  end.

Definition pair_key (gt : string * string) : string :=
  allowanceKey gt.1 gt.2.

(** What the per-user loop does to one descriptor. *)
Definition append_rewards (g : Gauge) (tokens : list string) : Gauge :=
  match tokens with
  | [] => g
  | _ => push_rewards g tokens
  end.

(** The discovery result a responsive chain gives for a registry. *)
Definition discovery_of (chain : Chain) (contract : Contract)
    (gs : list Gauge) : list addresses :=
  map (fun g => eth_call_addresses chain
                  (Bribe.rewards_per_gauge contract (gauge g))) gs.

(** A chain that answers: the provider of the connection can be set up
    and every batch comes back. *)
Definition responsive (chain : Chain) (web3 : Web3) : Prop :=
  newEthCallProvider chain (default (getProvider 1) (provider web3)) = true
  ∧ ∀ batch, transport chain batch = true.

(** The two tests of [assignBribes] on the entries read for a key. *)
Definition passes (currentPeriod : number) (key : string) (r p : jsval)
  : Prop :=
  truthy key = true
  ∧ ∃ rz pz, r = JBig rz ∧ p = JBig pz ∧ 0 < rz
             ∧ number_ge pz currentPeriod = true.

(** The per-user batch and the projection batch for a list of pairs. *)
Definition user_batch (contract : Contract) (pairs : list (string * string))
  : list Bribe.call :=
  flat_map (fun gt => user_calls contract PLACEHOLDER gt.1 gt.2) pairs.

Definition next_batch (contract : Contract) (pairs : list (string * string))
  : list Bribe.call :=
  flat_map (fun gt => next_calls contract gt.1 gt.2) pairs.

(** The discovery batch for a list of gauges. *)
Definition discovery_batch (contract : Contract) (gs : list Gauge)
  : list Bribe.call :=
  map (fun g => Bribe.rewards_per_gauge contract (gauge g)) gs.

(** *** The lists a cycle aggregates *)

(** The cycle [getBribes] runs from the world [w] got past its two
    [Promise.all]: [keys] and [results] are the merged lists of the two
    per-user fetches, [nkeys] and [nresults] the lists of the projection
    fetch. *)
Definition fetched (chain : Chain) (web3 : Web3) (w : World)
    (keys : list string) (results : list jsval)
    (nkeys : list string) (nresults : list jsval) : Prop :=
  ∃ rpg2 rpg3 w1 w2 k2 r2 w3 k3 r3 w4 w5,
    getRewardsPerGauges chain web3 curveBribeV2Contract w = (Ok rpg2, w1)
    ∧ getRewardsPerGauges chain web3 curveBribeV3Contract w1 = (Ok rpg3, w2)
    ∧ getRewardsPerUser chain web3 curveBribeV2Contract rpg2 w2
      = (Ok (k2, r2), w3)
    ∧ getRewardsPerUser chain web3 curveBribeV2Contract rpg3 w3
      = (Ok (k3, r3), w4)
    ∧ getNextPeriodRewards chain web3 curveBribeV3Contract rpg3 w4
      = (Ok (nkeys, nresults), w5)
    ∧ keys = k2 ++ k3 ∧ results = r2 ++ r3.

(** *** The states the context goes through *)

(** From mount on, the state only changes through the two effects: the
    period query and the refresh cycle (run at mount and on [refresh()]). *)
Inductive reachable (lastThursday lastThursday' : Z) : State → Prop :=
| reach_mount :
    reachable lastThursday lastThursday'
      (initialState lastThursday lastThursday')
| reach_shared chain web3 st w st' w' :
    reachable lastThursday lastThursday' st →
    getSharedStuffFromBribes chain web3 st w = (Ok st', w') →
    reachable lastThursday lastThursday' st'
| reach_refresh chain web3 st w :
    reachable lastThursday lastThursday' st →
    reachable lastThursday lastThursday' (fst (refresh chain web3 st w)).

(** The discovery calls of this chain find no token for any gauge. *)
Definition no_token_discovered (chain : Chain) : Prop :=
  ∀ c g,
    discovered (Some (eth_call_addresses chain (Bribe.rewards_per_gauge c g)))
    = [].

(** ** Properties *)

(** *** Composite keys *)

Lemma split_nonempty sep s : split sep s ≠ [].
Proof.
  destruct s as [|c rest]; simpl; [done|].
  destruct (Ascii.eqb c sep); [done|].
  destruct (split sep rest); done.
Qed.

Lemma split_no_sep s :
  no_underscore s = true → split underscore s = [s].
Proof.
  induction s as [|c rest IH]; simpl; [done|].
  intros [Hc Hrest]%andb_true_iff.
  apply negb_true_iff in Hc. rewrite Hc, (IH Hrest). done.
Qed.

Lemma split_allowanceKey g t :
  no_underscore g = true → no_underscore t = true →
  split underscore (allowanceKey g t) = [g; t].
Proof.
  intros Hg Ht. unfold allowanceKey.
  induction g as [|c rest IH]; simpl in *.
  - rewrite (split_no_sep _ Ht). done.
  - apply andb_true_iff in Hg as [Hc Hrest].
    apply negb_true_iff in Hc. rewrite Hc, (IH Hrest). done.
Qed.

Lemma hex_digit_not_underscore c :
  is_hex_digit c = true → negb (Ascii.eqb c underscore) = true.
Proof.
  intros H. apply negb_true_iff, Ascii.eqb_neq. intros ->.
  vm_compute in H. discriminate.
Qed.

Lemma string_forall_impl (p q : ascii → bool) s :
  (∀ c, p c = true → q c = true) →
  string_forall p s = true → string_forall q s = true.
Proof.
  intros Hpq. induction s as [|c rest IH]; simpl; [done|].
  intros [Hc Hrest]%andb_true_iff. rewrite (Hpq _ Hc), (IH Hrest). done.
Qed.

Lemma address_no_underscore s :
  is_address s = true → no_underscore s = true.
Proof.
  destruct s as [|a [|b digits]]; try discriminate.
  - simpl. destruct a as [[] [] [] [] [] [] [] []]; discriminate.
  - unfold is_address.
    destruct (Ascii.eqb a "0") eqn:Ea; [apply Ascii.eqb_eq in Ea as ->|].
    2:{ destruct a as [[] [] [] [] [] [] [] []]; try discriminate. }
    destruct (Ascii.eqb b "x") eqn:Eb; [apply Ascii.eqb_eq in Eb as ->|].
    2:{ destruct b as [[] [] [] [] [] [] [] []]; try discriminate. }
    intros [_ Hd]%andb_true_iff. unfold no_underscore. simpl.
    revert Hd. apply string_forall_impl, hex_digit_not_underscore.
Qed.


(** C5. Splitting the composite key built from a gauge address and a
    token address, written in any mix of upper and lower case, gives back
    exactly these two strings, and the destructuring used by the
    aggregation reads them off as (gauge, token). *)
Theorem allowanceKey_split_roundtrip (g t : string) :
  is_address g = true → is_address t = true →
  split underscore (allowanceKey g t) = [g; t]
  ∧ destructure_key (allowanceKey g t) = (g, Some t).
Proof.
  intros Hg%address_no_underscore Ht%address_no_underscore.
  unfold destructure_key. rewrite (split_allowanceKey g t Hg Ht). done.
Qed.

(** *** Discovery *)

Lemma idle_inactive {A} web3 (l : list A) :
  isActive web3 = false → idle web3 l = true.
Proof. unfold idle. intros ->. done. Qed.

Lemma idle_no_provider {A} web3 (l : list A) :
  provider web3 = None → idle web3 l = true.
Proof. unfold idle. intros ->. apply orb_true_iff. left. apply orb_true_r. Qed.

Lemma idle_nil {A} web3 : idle web3 (@nil A) = true.
Proof. unfold idle. apply orb_true_r. Qed.

Lemma idle_false {A} web3 (l : list A) :
  idle web3 l = false →
  isActive web3 = true ∧ (∃ p, provider web3 = Some p) ∧ l ≠ [].
Proof.
  unfold idle. intros H.
  apply orb_false_iff in H as [H Hl]. apply orb_false_iff in H as [Ha Hp].
  apply negb_false_iff in Ha. split; [done|]. split.
  - destruct (provider web3); [eauto|discriminate].
  - intros ->. discriminate.
Qed.

Lemma getRewardsPerGauges_when_idle chain web3 contract w :
  idle web3 (gauges w) = true →
  getRewardsPerGauges chain web3 contract w = (Ok [], w).
Proof.
  intros H. unfold getRewardsPerGauges, bind, useCurve_gauges.
  rewrite H. done.
Qed.

(** C6. Discovery called with an inactive connection, without a provider
    or with no gauge returns the empty list: it does not throw, whatever
    the network would answer, and it issues no call. *)
Theorem getRewardsPerGauges_empty_when_idle chain web3 contract w :
  isActive web3 = false ∨ provider web3 = None ∨ gauges w = [] →
  getRewardsPerGauges chain web3 contract w = (Ok [], w).
Proof.
  intros H. apply getRewardsPerGauges_when_idle.
  destruct H as [H|[H|H]].
  - by apply idle_inactive.
  - by apply idle_no_provider.
  - rewrite H. apply idle_nil.
Qed.

(** *** The empty paths of the aggregation *)

Lemma assignBribes_nil_keys st results : assignBribes st [] results = Ok st.
Proof. unfold assignBribes. simpl. by rewrite orb_true_r. Qed.

Lemma assignBribes_nil_results st keys : assignBribes st keys [] = Ok st.
Proof. done. Qed.

Lemma assignNextRewards_nil_keys st results :
  assignNextRewards st [] results = Ok st.
Proof. unfold assignNextRewards. simpl. by rewrite orb_true_r. Qed.

Lemma assignNextRewards_nil_results st keys :
  assignNextRewards st keys [] = Ok st.
Proof. done. Qed.

(** C7. With an empty key list or an empty result list both aggregation
    routines return without setting anything: the state after the call,
    with its three mappings and its loading flag, is the state before.
    On any input the setters run after the loop only: the state after a
    call is either the state before, or the one holding the tables of the
    completed loop, never those of a loop that stopped half-way. *)
Theorem assign_empty_is_noop st (keys : list string) (results : list jsval) :
  (keys = [] ∨ results = [] →
   assignBribes st keys results = Ok st
   ∧ assignNextRewards st keys results = Ok st
   ∧ settled st (assignBribes st keys results) = st
   ∧ settled st (assignNextRewards st keys results) = st)
  ∧ (settled st (assignBribes st keys results) = st
     ∨ ∃ t,
         bribes_loop (currentPeriod st) results keys 0 no_tables = Ok t
         ∧ settled st (assignBribes st keys results)
           = publish_bribes st (_currentRewards t) (_claimable t))
  ∧ (settled st (assignNextRewards st keys results) = st
     ∨ ∃ table,
         next_rewards_loop results keys 0 ∅ = Ok table
         ∧ settled st (assignNextRewards st keys results)
           = set_nextRewards st table).
Proof.
  split_and!.
  - intros [-> | ->].
    + rewrite assignBribes_nil_keys, assignNextRewards_nil_keys. done.
    + rewrite assignBribes_nil_results, assignNextRewards_nil_results. done.
  - unfold assignBribes. destruct (_ || _); [by left|].
    destruct (bribes_loop _ _ _ _ _) as [t|]; [|by left].
    right. by exists t.
  - unfold assignNextRewards. destruct (_ || _); [by left|].
    destruct (next_rewards_loop _ _ _ _) as [table|]; [|by left].
    right. by exists table.
Qed.

(** *** What the fetches put on the wire *)

Lemma issues_ret {A} P (a : A) : issues P (ret a).
Proof. intros w. exists []. simpl. by rewrite app_nil_r. Qed.

Lemma issues_mono {A} (P Q : Bribe.call → Prop) (m : M A) :
  (∀ q, P q → Q q) → issues P m → issues Q m.
Proof.
  intros HPQ Hm w. destruct (Hm w) as (bs & E & HF).
  exists bs. split; [done|].
  eapply Forall_impl; [exact HF|]. intros b Hb.
  eapply Forall_impl; [exact Hb|]. exact HPQ.
Qed.

Lemma issues_bind {A B} P (m : M A) (k : A → M B) :
  issues P m → (∀ a, issues P (k a)) → issues P (bind m k).
Proof.
  intros Hm Hk w. unfold bind.
  destruct (Hm w) as (bs & E & HF).
  destruct (m w) as [[a|] w1]; simpl in *.
  - destruct (Hk a w1) as (bs' & E' & HF').
    exists (bs ++ bs'). rewrite E', E, app_assoc. split; [done|].
    by apply Forall_app.
  - by exists bs.
Qed.

Lemma issues_all2 {A B} P (ma : M A) (mb : M B) :
  issues P ma → issues P mb → issues P (all2 ma mb).
Proof.
  intros Ha Hb w. unfold all2.
  destruct (Ha w) as (bs & E & HF).
  destruct (ma w) as [ra w1]; simpl in *.
  destruct (Hb w1) as (bs' & E' & HF').
  destruct (mb w1) as [rb w2]; simpl in *.
  exists (bs ++ bs'). rewrite E', E, app_assoc. split; [done|].
  by apply Forall_app.
Qed.

Lemma issues_all3 {A B C} P (ma : M A) (mb : M B) (mc : M C) :
  issues P ma → issues P mb → issues P mc → issues P (all3 ma mb mc).
Proof.
  intros Ha Hb Hc w. unfold all3.
  destruct (Ha w) as (bs & E & HF).
  destruct (ma w) as [ra w1]; simpl in *.
  destruct (Hb w1) as (bs' & E' & HF').
  destruct (mb w1) as [rb w2]; simpl in *.
  destruct (Hc w2) as (bs'' & E'' & HF'').
  destruct (mc w2) as [rc w3]; simpl in *.
  exists (bs ++ bs' ++ bs''). rewrite E'', E', E, !app_assoc.
  split; [done|]. rewrite <- app_assoc. by rewrite !Forall_app.
Qed.

Lemma issues_newEthCallProvider P chain p :
  issues P (providers_newEthCallProvider chain p).
Proof.
  intros w. exists []. unfold providers_newEthCallProvider.
  destruct (newEthCallProvider chain p); simpl; by rewrite app_nil_r.
Qed.

Lemma issues_useCurve_gauges P : issues P useCurve_gauges.
Proof. intros w. exists []. simpl. by rewrite app_nil_r. Qed.

Lemma issues_on_gauges {A} P (f : list Gauge → list Gauge * A) :
  issues P (on_gauges f).
Proof.
  intros w. exists []. unfold on_gauges.
  destruct (f (gauges w)) as [gs a]. simpl. by rewrite app_nil_r.
Qed.

Lemma issues_tryAll_addresses (P : Bribe.call → Prop) chain batch :
  Forall P batch → issues P (tryAll_addresses chain batch).
Proof.
  intros HF w. exists [batch]. unfold tryAll_addresses.
  destruct (transport chain batch); simpl; (split; [done|]);
    by apply Forall_singleton.
Qed.

Lemma issues_tryAll (P : Bribe.call → Prop) chain batch :
  Forall P batch → issues P (tryAll chain batch).
Proof.
  intros HF w. exists [batch]. unfold tryAll.
  destruct (transport chain batch); simpl; (split; [done|]);
    by apply Forall_singleton.
Qed.

(** The calls of the per-user loop: all to the registry it was given, the
    claimable ones for the user it was given. *)
Lemma user_loop_calls contract userAddress gs rpg :
  Forall (fun q =>
            Bribe.per_user q = true ∧ Bribe.target q = contract
            ∧ ∀ c u g t, q = Bribe.claimable c u g t → u = userAddress)
         (user_loop contract userAddress gs rpg).2.
Proof.
  revert rpg. induction gs as [|g gs IH]; intros rpg; simpl; [constructor|].
  specialize (IH (tail rpg)).
  destruct (user_loop contract userAddress gs (tail rpg)) as [[gs' keys] calls].
  simpl in IH.
  destruct (discovered (head rpg)) as [|t ts] eqn:Ed; simpl; [done|].
  repeat (constructor; [simpl; split_and!; try done; congruence|]).
  apply Forall_app. split; [|done].
  apply Forall_forall. intros q Hq.
  apply list_elem_of_In, in_flat_map in Hq as (t' & _ & Hq).
  simpl in Hq. destruct Hq as [<-|[<-|[<-|[]]]];
    simpl; split_and!; try done; congruence.
Qed.

Lemma next_loop_calls contract gs rpg :
  Forall (fun q => Bribe.per_user q = false)
         (next_loop contract gs rpg).2.
Proof.
  revert rpg. induction gs as [|g gs IH]; intros rpg; simpl; [constructor|].
  specialize (IH (tail rpg)).
  destruct (next_loop contract gs (tail rpg)) as [keys calls]. simpl in *.
  apply Forall_app. split; [|done].
  apply Forall_forall. intros q Hq.
  apply list_elem_of_In, in_flat_map in Hq as (t' & _ & Hq).
  simpl in Hq. destruct Hq as [<-|[<-|[]]]; done.
Qed.

Lemma getRewardsPerGauges_issues chain web3 contract :
  issues (fun q => Bribe.per_user q = false)
         (getRewardsPerGauges chain web3 contract).
Proof.
  unfold getRewardsPerGauges.
  apply issues_bind; [apply issues_useCurve_gauges|]. intros gs.
  destruct (idle web3 gs); [apply issues_ret|].
  apply issues_bind; [apply issues_newEthCallProvider|]. intros _.
  apply issues_bind; [|intros; apply issues_ret].
  apply issues_tryAll_addresses, Forall_forall. intros q Hq.
  apply list_elem_of_fmap in Hq as (g & -> & _). done.
Qed.

Lemma getRewardsPerUser_issues chain web3 contract rpg :
  issues (fun q =>
            Bribe.per_user q = true ∧ Bribe.target q = contract
            ∧ ∀ c u g t, q = Bribe.claimable c u g t → u = PLACEHOLDER)
         (getRewardsPerUser chain web3 contract rpg).
Proof.
  unfold getRewardsPerUser.
  destruct (idle web3 rpg); [apply issues_ret|].
  apply issues_bind; [apply issues_newEthCallProvider|]. intros _.
  unfold on_gauges, bind, issues. intros w.
  pose proof (user_loop_calls contract (or_else PLACEHOLDER (address web3))
                (gauges w) rpg) as HF.
  destruct (user_loop _ _ (gauges w) rpg) as [[gs keys] calls].
  simpl in HF. exists [calls]. unfold tryAll. simpl.
  destruct (transport chain calls); simpl; (split; [done|]);
    by apply Forall_singleton.
Qed.

Lemma getNextPeriodRewards_issues chain web3 contract rpg :
  issues (fun q => Bribe.per_user q = false)
         (getNextPeriodRewards chain web3 contract rpg).
Proof.
  unfold getNextPeriodRewards.
  destruct (idle web3 rpg); [apply issues_ret|].
  apply issues_bind; [apply issues_newEthCallProvider|]. intros _.
  apply issues_bind; [apply issues_useCurve_gauges|]. intros gs.
  pose proof (next_loop_calls contract gs rpg) as HF.
  destruct (next_loop contract gs rpg) as [keys calls]. simpl in HF.
  apply issues_bind; [|intros; apply issues_ret].
  by apply issues_tryAll.
Qed.

(** Every per-user call of a refresh cycle goes to the V2 registry, also
    those built from the token lists discovered on V3. *)
Lemma getBribes_per_user_on_V2 chain web3 st :
  issues (fun q => Bribe.per_user q = true →
                   Bribe.target q = curveBribeV2Contract)
         (getBribes chain web3 st).
Proof.
  unfold getBribes.
  apply issues_bind.
  { apply issues_all2;
      (eapply issues_mono; [|apply getRewardsPerGauges_issues]);
      simpl; intros q -> ?; done. }
  intros [rpg2 rpg3].
  apply issues_bind.
  { apply issues_all3.
    - eapply issues_mono; [|apply getRewardsPerUser_issues].
      intros q (_ & Ht & _) _. exact Ht.
    - eapply issues_mono; [|apply getRewardsPerUser_issues].
      intros q (_ & Ht & _) _. exact Ht.
    - eapply issues_mono; [|apply getNextPeriodRewards_issues].
      simpl; intros q -> ?; done. }
  intros [[[k2 r2] [k3 r3]] [kn rn]]. apply issues_ret.
Qed.

(** C4. The per-user fetch does not look at the connected account: run
    for two accounts on the same connection it returns the same key list
    and the same result batch and leaves the same world, and every
    claimable query it issues names the fixed placeholder address. *)
Theorem getRewardsPerUser_ignores_account chain web3 contract rpg w
    (account account' : string) :
  getRewardsPerUser chain (with_address web3 account) contract rpg w
  = getRewardsPerUser chain (with_address web3 account') contract rpg w
  ∧ PLACEHOLDER = "0xd63042a93525f33500c3a5c0387856d5a69bd1ec"
  ∧ ∃ batches,
      issued (snd (getRewardsPerUser chain (with_address web3 account)
                     contract rpg w)) = issued w ++ batches
      ∧ ∀ batch c u g t,
          In batch batches → In (Bribe.claimable c u g t) batch →
          u = PLACEHOLDER.
Proof.
  split; [done|]. split; [done|].
  destruct (getRewardsPerUser_issues chain (with_address web3 account)
              contract rpg w) as (bs & E & HF).
  exists bs. split; [done|].
  intros batch c u g t Hb Hq.
  rewrite Forall_forall in HF. specialize (HF batch).
  rewrite Forall_forall in HF.
  apply list_elem_of_In in Hb, Hq.
  destruct (HF Hb _ Hq) as (_ & _ & Hu). by eapply Hu.
Qed.

(** *** The gauge descriptors after a fetch *)

Lemma user_loop_gauges contract userAddress gs rpg i g :
  gs !! i = Some g →
  (user_loop contract userAddress gs rpg).1.1 !! i
  = Some (match discovered (rpg !! i) with
          | [] => g
          | tokens => push_rewards g tokens
          end).
Proof.
  revert rpg i. induction gs as [|g0 gs IH]; intros rpg i Hi; [done|].
  simpl. specialize (IH (tail rpg)).
  destruct (user_loop contract userAddress gs (tail rpg)) as [[gs' keys] calls].
  simpl in IH.
  destruct i as [|i].
  - simpl in Hi. injection Hi as ->.
    replace (rpg !! 0%nat) with (head rpg) by (by destruct rpg).
    by destruct (discovered (head rpg)).
  - simpl in Hi. specialize (IH i Hi).
    replace (rpg !! S i) with (tail rpg !! i) by (by destruct rpg).
    by destruct (discovered (head rpg)).
Qed.

Lemma getRewardsPerUser_gauges chain web3 contract rpg w :
  idle web3 rpg = false →
  newEthCallProvider chain (default (getProvider 1) (provider web3)) = true →
  gauges (snd (getRewardsPerUser chain web3 contract rpg w))
  = (user_loop contract (or_else PLACEHOLDER (address web3))
       (gauges w) rpg).1.1.
Proof.
  intros Hidle Hconn.
  unfold getRewardsPerUser, bind, providers_newEthCallProvider, on_gauges.
  rewrite Hidle, Hconn.
  destruct (user_loop _ _ (gauges w) rpg) as [[gs keys] calls].
  unfold tryAll. simpl. by destruct (transport chain calls).
Qed.

(** A discovery that returned something went past its guard and set up
    its multicall provider. *)
Lemma getRewardsPerGauges_nonempty chain web3 contract w rpg w' :
  getRewardsPerGauges chain web3 contract w = (Ok rpg, w') →
  rpg ≠ [] →
  isActive web3 = true
  ∧ (∃ p, provider web3 = Some p)
  ∧ newEthCallProvider chain (default (getProvider 1) (provider web3)) = true.
Proof.
  unfold getRewardsPerGauges, bind, useCurve_gauges,
    providers_newEthCallProvider.
  destruct (idle web3 (gauges w)) eqn:Hidle.
  - intros [= <- _] ?. done.
  - apply idle_false in Hidle as (Ha & Hp & _).
    destruct (newEthCallProvider chain _); [|discriminate]. done.
Qed.

(** C8. Given a discovery result that lists tokens for a gauge, the
    per-user fetch leaves that gauge's [rewardPerGauge] as what it was
    (the empty list when it was absent) followed by these tokens; a second
    fetch with the same discovery result appends them once more, so that
    each of them is then listed twice. *)
Theorem getRewardsPerUser_appends_tokens chain web3 contract0 contract
    w0 w1 rpg w (i : nat) g tokens :
  getRewardsPerGauges chain web3 contract0 w0 = (Ok rpg, w1) →
  gauges w !! i = Some g →
  rpg !! i = Some (Some tokens) →
  tokens ≠ [] →
  let w' := snd (getRewardsPerUser chain web3 contract rpg w) in
  let w'' := snd (getRewardsPerUser chain web3 contract rpg w') in
  gauges w' !! i
  = Some {| gauge := gauge g;
            rewardPerGauge := Some (default [] (rewardPerGauge g) ++ tokens) |}
  ∧ gauges w'' !! i
    = Some {| gauge := gauge g;
              rewardPerGauge :=
                Some (default [] (rewardPerGauge g) ++ tokens ++ tokens) |}.
Proof.
  intros Hdisc Hg Hrpg Htok w' w''.
  assert (rpg ≠ []) as Hne by (intros ->; done).
  destruct (getRewardsPerGauges_nonempty _ _ _ _ _ _ Hdisc Hne)
    as (Ha & [p Hp] & Hconn).
  assert (idle web3 rpg = false) as Hidle.
  { unfold idle. rewrite Ha, Hp. simpl.
    destruct rpg; [done|]. done. }
  assert (gauges w' !! i = Some (push_rewards g tokens)) as Hw'.
  { unfold w'. rewrite getRewardsPerUser_gauges by done.
    rewrite (user_loop_gauges _ _ _ _ _ _ Hg), Hrpg. simpl.
    by destruct tokens. }
  split; [exact Hw'|].
  unfold w''. rewrite getRewardsPerUser_gauges by done.
  rewrite (user_loop_gauges _ _ _ _ _ _ Hw'), Hrpg. simpl.
  destruct tokens as [|t ts]; [done|].
  unfold push_rewards. simpl. by rewrite <- app_assoc.
Qed.

(** *** The two-level mappings *)

Lemma lookup2_empty G T : lookup2 ∅ G T = None.
Proof. unfold lookup2. by rewrite lookup_empty. Qed.

Lemma lookup2_assign_ensure m G T v G' T' :
  lookup2 (assign (ensure m G) G T v) G' T'
  = if decide (G = G' ∧ T = T') then Some v else lookup2 m G' T'.
Proof.
  unfold assign, ensure, lookup2.
  destruct (m !! G) as [inner|] eqn:E.
  - rewrite E. destruct (decide (G = G')) as [<-|HG].
    + rewrite lookup_insert_eq, E.
      destruct (decide (T = T')) as [<-|HT].
      * rewrite lookup_insert_eq. by rewrite decide_True.
      * rewrite lookup_insert_ne by done. rewrite decide_False; [done|].
        by intros [_ ?].
    + rewrite lookup_insert_ne by done. rewrite decide_False; [done|].
      by intros [? _].
  - rewrite lookup_insert_eq. destruct (decide (G = G')) as [<-|HG].
    + rewrite lookup_insert_eq, E.
      destruct (decide (T = T')) as [<-|HT].
      * rewrite lookup_insert_eq. by rewrite decide_True.
      * rewrite lookup_insert_ne by done. rewrite lookup_empty.
        rewrite decide_False; [done|]. by intros [_ ?].
    + rewrite !lookup_insert_ne by done. rewrite decide_False; [done|].
      by intros [? _].
Qed.

Lemma has_entry_assign_ensure m G T v G' T' :
  has_entry (assign (ensure m G) G T v) G' T'
  ↔ (G, T) = (G', T') ∨ has_entry m G' T'.
Proof.
  unfold has_entry. rewrite lookup2_assign_ensure.
  destruct (decide (G = G' ∧ T = T')) as [[-> ->]|Hne].
  - split; [by left|]. intros _. by eexists.
  - split; [by right|]. intros [[= -> ->]|H]; [|done]. by destruct Hne.
Qed.

Lemma same_entries_refl m : same_entries m m.
Proof. by intros G T. Qed.

Lemma at_index_JBig results (n : nat) z :
  at_index results n = JBig z ↔ results !! n = Some (JBig z).
Proof.
  unfold at_index. destruct (results !! n) as [v|]; simpl.
  - split; [by intros ->|by intros [= ->]].
  - split; discriminate.
Qed.

Lemma truthy_nonempty key : truthy key = true ↔ key ≠ EmptyString.
Proof. destruct key; simpl; split; done. Qed.

(** *** The loop of assignBribes *)

Lemma bribes_step_cases cp key r p c acc acc' :
  bribes_step cp key r p c acc = Ok acc' →
  (acc' = record_bribe key r p c acc ∧ truthy key = true
   ∧ ∃ rz pz, r = JBig rz ∧ p = JBig pz ∧ 0 < rz ∧ number_ge pz cp = true)
  ∨ (acc' = acc
     ∧ ¬ (truthy key = true
          ∧ ∃ rz pz, r = JBig rz ∧ p = JBig pz ∧ 0 < rz
                     ∧ number_ge pz cp = true)).
Proof.
  unfold bribes_step, toNumber, gt0.
  destruct p as [| |pz]; simpl; try discriminate.
  destruct (Z.abs pz <? MAX_SAFE); simpl; [|discriminate].
  destruct (number_ge pz cp) eqn:Hge.
  2:{ intros [= <-]. right. split; [done|].
      intros (_ & rz & pz' & _ & [= <-] & _ & Hge'). congruence. }
  destruct (truthy key) eqn:Hkey.
  2:{ intros [= <-]. right. split; [done|]. intros [? _]. done. }
  destruct r as [| |rz]; simpl; try discriminate.
  destruct (0 <? rz) eqn:Hpos; intros [= <-].
  - left. split; [done|]. split; [done|].
    exists rz, pz. apply Z.ltb_lt in Hpos. done.
  - right. split; [done|].
    intros (_ & rz' & pz' & [= <-] & _ & Hr & _).
    apply Z.ltb_ge in Hpos. lia.
Qed.

Lemma record_bribe_entries key r p c acc G T :
  (has_entry (_currentRewards (record_bribe key r p c acc)) G T
   ↔ key_pair key = (G, T) ∨ has_entry (_currentRewards acc) G T)
  ∧ (has_entry (_claimable (record_bribe key r p c acc)) G T
     ↔ key_pair key = (G, T) ∨ has_entry (_claimable acc) G T).
Proof.
  unfold record_bribe. destruct (key_pair key) as [G0 T0]. simpl.
  split; apply has_entry_assign_ensure.
Qed.

Lemma bribe_at_cons cp results key rest i G T :
  bribe_at cp results (key :: rest) i G T
  ↔ (truthy key = true ∧ key_pair key = (G, T)
     ∧ ∃ r p, at_index results i = JBig r
              ∧ at_index results (i + 1) = JBig p
              ∧ 0 < r ∧ number_ge p cp = true)
    ∨ bribe_at cp results rest (i + 3) G T.
Proof.
  unfold bribe_at. split.
  - intros (j & k & r & p & Hk & Ht & Hp & Hr & Hpe & Hpos & Hge).
    destruct j as [|j].
    + left. injection Hk as ->.
      replace (i + 3 * 0)%nat with i in * by lia. eauto 10.
    + right. exists j, k, r, p. simpl in Hk.
      replace (i + 3 + 3 * j)%nat with (i + 3 * S j)%nat by lia.
      done.
  - intros [(Ht & Hp & r & p & Hr & Hpe & Hpos & Hge)
           |(j & k & r & p & Hk & Ht & Hp & Hr & Hpe & Hpos & Hge)].
    + exists 0%nat, key, r, p.
      replace (i + 3 * 0)%nat with i by lia. done.
    + exists (S j), k, r, p.
      replace (i + 3 * S j)%nat with (i + 3 + 3 * j)%nat by lia.
      done.
Qed.

Lemma bribes_loop_entries cp results keys i acc acc' :
  bribes_loop cp results keys i acc = Ok acc' →
  ∀ G T,
    (has_entry (_currentRewards acc') G T
     ↔ has_entry (_currentRewards acc) G T ∨ bribe_at cp results keys i G T)
    ∧ (has_entry (_claimable acc') G T
       ↔ has_entry (_claimable acc) G T ∨ bribe_at cp results keys i G T).
Proof.
  revert i acc. induction keys as [|key rest IH]; intros i acc; simpl.
  - intros [= <-] G T.
    assert (¬ bribe_at cp results [] i G T) as Hno
      by (intros (j & k & ? & ? & Hk & _); done).
    split; (split; [by left|by intros [?|?]]).
  - destruct (bribes_step cp key _ _ _ acc) as [acc1|] eqn:Hstep;
      simpl; [|discriminate].
    intros Hloop G T. destruct (IH _ _ Hloop G T) as [IHcur IHcla].
    rewrite IHcur, IHcla, bribe_at_cons.
    apply bribes_step_cases in Hstep
      as [(-> & Ht & rz & pz & Hr & Hp & Hpos & Hge)|(-> & Hnot)].
    + destruct (record_bribe_entries key (at_index results i)
                  (at_index results (i + 1)) (at_index results (i + 2))
                  acc G T) as [-> ->].
      assert ((truthy key = true ∧ key_pair key = (G, T)
               ∧ ∃ r p, at_index results i = JBig r
                        ∧ at_index results (i + 1) = JBig p
                        ∧ 0 < r ∧ number_ge p cp = true)
              ↔ key_pair key = (G, T)) as ->.
      { split; [by intros (_ & ? & _)|]. intros Hpair.
        split; [done|]. split; [done|]. by exists rz, pz. }
      tauto.
    + assert ((truthy key = true ∧ key_pair key = (G, T)
               ∧ ∃ r p, at_index results i = JBig r
                        ∧ at_index results (i + 1) = JBig p
                        ∧ 0 < r ∧ number_ge p cp = true)
              ↔ False) as ->.
      { split; [|done]. intros (Ht & _ & r & p & Hr); apply Hnot.
        split; [done|]. by exists r, p. }
      tauto.
Qed.

Lemma bribes_loop_total cp results keys i acc :
  (∀ j, (j < length keys)%nat →
        ∃ r p, at_index results (i + 3 * j) = JBig r
               ∧ at_index results (i + 3 * j + 1) = JBig p
               ∧ Z.abs p < MAX_SAFE) →
  ∃ acc', bribes_loop cp results keys i acc = Ok acc'.
Proof.
  revert i acc. induction keys as [|key rest IH]; intros i acc Hwf; simpl.
  - by eexists.
  - destruct (Hwf 0%nat) as (r & p & Hr & Hp & Hsafe); [simpl; lia|].
    replace (i + 3 * 0)%nat with i in * by lia.
    rewrite Hr, Hp. unfold bribes_step, toNumber, gt0.
    apply Z.ltb_lt in Hsafe. rewrite Hsafe. simpl.
    assert (∀ acc1, ∃ acc',
               bribes_loop cp results rest (i + 3) acc1 = Ok acc') as Hrest.
    { intros acc1. apply IH. intros j Hj.
      destruct (Hwf (S j)) as (r' & p' & Hr' & Hp' & Hs'); [simpl; lia|].
      exists r', p'.
      replace (i + 3 + 3 * j)%nat with (i + 3 * S j)%nat by lia. done. }
    destruct (number_ge p cp); [|apply Hrest].
    destruct (truthy key); [|apply Hrest].
    simpl. destruct (0 <? r); apply Hrest.
Qed.

Lemma assignBribes_publishes st keys results st' :
  keys ≠ [] → results ≠ [] →
  assignBribes st keys results = Ok st' →
  ∃ t, bribes_loop (currentPeriod st) results keys 0 no_tables = Ok t
       ∧ st' = publish_bribes st (_currentRewards t) (_claimable t).
Proof.
  intros Hk Hr. unfold assignBribes.
  destruct results as [|v results]; [done|].
  destruct keys as [|key keys]; [done|].
  cbn [length Nat.eqb orb].
  destruct (bribes_loop _ _ _ _ _) as [t|]; simpl; [|discriminate].
  intros [= <-]. by exists t.
Qed.

Lemma number_ge_true p n :
  number_ge p n = true ↔ ∃ cp, n = Num cp ∧ cp ≤ p.
Proof.
  destruct n as [c|]; simpl.
  - rewrite Z.leb_le. split; [by exists c|]. by intros (cp & [= ->] & ?).
  - split; [discriminate|]. by intros (cp & ? & _).
Qed.

(** C2. On a non-empty key list with its matching result list (three
    decoded uint256 per key, the periods within the range [toNumber]
    accepts), [assignBribes] completes, and the [currentRewards] it
    publishes has an entry for a pair (G, T) exactly when some key filed
    under that pair comes with a nonzero reward and a period at or after
    the current period. The empty string is no composite key and is
    skipped by the code. *)
Theorem assignBribes_entry_iff st (keys : list string) (results : list jsval) :
  keys ≠ [] →
  length results = (3 * length keys)%nat →
  Forall uint256 results →
  (∀ (j : nat) p, results !! (3 * j + 1)%nat = Some (JBig p) → p < MAX_SAFE) →
  ∃ st',
    assignBribes st keys results = Ok st'
    ∧ ∀ G T,
        has_entry (currentRewards st') G T
        ↔ ∃ (j : nat) key r p cp,
            keys !! j = Some key ∧ key ≠ EmptyString ∧ key_pair key = (G, T)
            ∧ results !! (3 * j)%nat = Some (JBig r)
            ∧ results !! (3 * j + 1)%nat = Some (JBig p)
            ∧ currentPeriod st = Num cp
            ∧ r ≠ 0 ∧ cp ≤ p.
Proof.
  intros Hkeys Hlen Huint Hsafe.
  assert (∀ (n : nat) z, results !! n = Some (JBig z) → 0 ≤ z) as Hnonneg.
  { intros n z Hn. rewrite Forall_lookup in Huint.
    destruct (Huint _ _ Hn) as (z' & [= <-] & ? & _). done. }
  destruct (bribes_loop_total (currentPeriod st) results keys 0 no_tables)
    as [t Ht].
  { intros j Hj. simpl.
    destruct (lookup_lt_is_Some_2 results (3 * j)) as [r Hr]; [lia|].
    destruct (lookup_lt_is_Some_2 results (3 * j + 1)) as [p Hp]; [lia|].
    rewrite Forall_lookup in Huint.
    destruct (Huint _ _ Hr) as (rz & -> & _).
    destruct (Huint _ _ Hp) as (pz & -> & Hpz & _).
    exists rz, pz. rewrite !at_index_JBig. split; [done|]. split; [done|].
    specialize (Hsafe _ _ Hp). lia. }
  exists (publish_bribes st (_currentRewards t) (_claimable t)). split.
  { unfold assignBribes. rewrite Ht.
    destruct results as [|v results];
      [destruct keys; [done|simpl in Hlen; lia]|].
    destruct keys as [|key keys]; done. }
  intros G T. simpl.
  destruct (bribes_loop_entries _ _ _ _ _ _ Ht G T) as [-> _].
  unfold bribe_at. simpl. split.
  - intros [[v Hv]|(j & key & r & p & Hk & Htr & Hp & Hr & Hpe & Hpos & Hge)].
    { rewrite lookup2_empty in Hv. done. }
    apply number_ge_true in Hge as (cp & Hcp & Hle).
    exists j, key, r, p, cp.
    rewrite <- !at_index_JBig, <- truthy_nonempty. split_and!; try done. lia.
  - intros (j & key & r & p & cp & Hk & Htr & Hp & Hr & Hpe & Hcp & Hnz & Hle).
    right. exists j, key, r, p.
    rewrite !at_index_JBig, truthy_nonempty, number_ge_true.
    split_and!; try done.
    + specialize (Hnonneg _ _ Hr). lia.
    + by exists cp.
Qed.

Lemma settled_assignBribes_same_entries st keys results :
  same_entries (currentRewards st) (claimable st) →
  same_entries (currentRewards (settled st (assignBribes st keys results)))
               (claimable (settled st (assignBribes st keys results))).
Proof.
  intros Hst. unfold assignBribes.
  destruct (_ || _); [done|].
  destruct (bribes_loop _ _ _ _ _) as [t|] eqn:Ht; simpl; [|done].
  intros G T. destruct (bribes_loop_entries _ _ _ _ _ _ Ht G T) as [-> ->].
  unfold has_entry. simpl. rewrite lookup2_empty. done.
Qed.

(** C9. After a run of [assignBribes] the [claimable] mapping and the
    [currentRewards] mapping have entries for exactly the same (gauge,
    token) pairs: a run that publishes writes both under the same two
    tests, and a run that returns early or throws leaves them as they
    were, on the same pairs as at mount. A pair has a claimable entry only
    if one of its keys came with a nonzero reward and a period at or after
    the current period, whatever the claimable amount was. *)
Theorem assignBribes_claimable_follows_currentRewards st
    (keys : list string) (results : list jsval) :
  (same_entries (currentRewards st) (claimable st) →
   same_entries (currentRewards (settled st (assignBribes st keys results)))
                (claimable (settled st (assignBribes st keys results))))
  ∧ ∀ st',
      keys ≠ [] → results ≠ [] →
      assignBribes st keys results = Ok st' →
      same_entries (currentRewards st') (claimable st')
      ∧ ∀ G T,
          has_entry (claimable st') G T →
          ∃ (j : nat) key r p cp,
            keys !! j = Some key ∧ key ≠ EmptyString
            ∧ key_pair key = (G, T)
            ∧ results !! (3 * j)%nat = Some (JBig r)
            ∧ results !! (3 * j + 1)%nat = Some (JBig p)
            ∧ currentPeriod st = Num cp
            ∧ r ≠ 0 ∧ cp ≤ p.
Proof.
  split; [by apply settled_assignBribes_same_entries|].
  intros st' Hk Hr Hrun.
  destruct (assignBribes_publishes _ _ _ _ Hk Hr Hrun) as (t & Ht & ->).
  simpl. split.
  { intros G T. destruct (bribes_loop_entries _ _ _ _ _ _ Ht G T) as [-> ->].
    unfold has_entry. rewrite lookup2_empty. done. }
  intros G T Hentry.
  destruct (bribes_loop_entries _ _ _ _ _ _ Ht G T) as [_ Hcla].
  apply Hcla in Hentry
    as [[v Hv]|(j & key & r & p & Hkey & Htr & Hp & Hre & Hpe & Hpos & Hge)].
  { rewrite lookup2_empty in Hv. done. }
  apply number_ge_true in Hge as (cp & Hcp & Hle).
  exists j, key, r, p, cp. simpl in Hre, Hpe.
  rewrite <- !at_index_JBig, <- truthy_nonempty. split_and!; try done. lia.
Qed.

(** *** The loop of assignNextRewards *)

Lemma next_step_cases key r c acc acc' :
  next_step key r c acc = Ok acc' →
  (truthy key = true
   ∧ ∃ rz cz, r = JBig rz ∧ c = JBig cz
              ∧ acc' = assign (ensure acc (key_pair key).1)
                         (key_pair key).1 (key_pair key).2 (JBig (rz - cz)))
  ∨ (truthy key = false ∧ acc' = acc).
Proof.
  unfold next_step. destruct (truthy key); [|intros [= <-]; by right].
  destruct (key_pair key) as [G T]. unfold sub.
  destruct r as [| |rz]; simpl; try discriminate.
  destruct c as [| |cz]; simpl; try discriminate.
  intros [= <-]. left. split; [done|]. by exists rz, cz.
Qed.

(** Keys filed elsewhere leave the entry of (G, T) alone. *)
Lemma next_rewards_loop_frame results keys i acc acc' G T :
  next_rewards_loop results keys i acc = Ok acc' →
  (∀ (j : nat) key, keys !! j = Some key → truthy key = true →
                    key_pair key ≠ (G, T)) →
  lookup2 acc' G T = lookup2 acc G T.
Proof.
  revert i acc. induction keys as [|key rest IH]; intros i acc; simpl.
  - by intros [= <-].
  - destruct (next_step key _ _ acc) as [acc1|] eqn:Hstep;
      simpl; [|discriminate].
    intros Hloop Hother.
    rewrite (IH _ _ Hloop) by (intros j k Hk; apply (Hother (S j) k Hk)).
    apply next_step_cases in Hstep
      as [(Ht & rz & cz & _ & _ & ->)|(_ & ->)]; [|done].
    rewrite lookup2_assign_ensure. rewrite decide_False; [done|].
    intros [HG HT]. apply (Hother 0%nat key eq_refl Ht).
    destruct (key_pair key). simpl in *. congruence.
Qed.

(** The last key filed under a pair decides its entry. *)
Lemma next_rewards_loop_last results keys i acc acc' (j : nat) key :
  next_rewards_loop results keys i acc = Ok acc' →
  keys !! j = Some key → truthy key = true →
  (∀ (j' : nat) key', (j < j')%nat → keys !! j' = Some key' →
                      truthy key' = true → key_pair key' ≠ key_pair key) →
  ∃ r c, at_index results (i + 2 * j) = JBig r
         ∧ at_index results (i + 2 * j + 1) = JBig c
         ∧ lookup2 acc' (key_pair key).1 (key_pair key).2
           = Some (JBig (r - c)).
Proof.
  revert i acc j. induction keys as [|key0 rest IH]; intros i acc j;
    cbn [next_rewards_loop]; [done|].
  destruct (next_step key0 _ _ acc) as [acc1|] eqn:Hstep;
    cbn [obind]; [|discriminate].
  intros Hloop Hj Ht Hlast. destruct j as [|j].
  - injection Hj as ->.
    apply next_step_cases in Hstep
      as [(_ & rz & cz & Hr & Hc & ->)|(Hf & _)]; [|congruence].
    exists rz, cz. replace (i + 2 * 0)%nat with i by lia.
    split; [done|]. split; [done|].
    rewrite (next_rewards_loop_frame _ _ _ _ _ _ _ Hloop).
    + rewrite lookup2_assign_ensure. by rewrite decide_True.
    + intros j' k' Hk' Ht'. rewrite <- surjective_pairing.
      apply (Hlast (S j') k'); [lia|done|done].
  - simpl in Hj.
    destruct (IH _ _ _ Hloop Hj Ht) as (r & c & Hr & Hc & Hl).
    { intros j' k' Hlt Hk'. apply (Hlast (S j') k'); [lia|done]. }
    exists r, c.
    replace (i + 2 * S j)%nat with (i + 2 + 2 * j)%nat by lia. done.
Qed.

(** Whatever the loop adds is the difference read for one of the keys. *)
Lemma next_rewards_loop_sound results keys i acc acc' G T v :
  next_rewards_loop results keys i acc = Ok acc' →
  lookup2 acc' G T = Some v →
  lookup2 acc G T = Some v ∨ pending_at results keys i G T v.
Proof.
  revert i acc. induction keys as [|key rest IH]; intros i acc; simpl.
  - intros [= <-] ?. by left.
  - destruct (next_step key _ _ acc) as [acc1|] eqn:Hstep;
      simpl; [|discriminate].
    intros Hloop Hv.
    destruct (IH _ _ Hloop Hv)
      as [Hacc1|(j & k & r & c & Hk & Ht & Hp & Hr & Hc & ->)].
    + apply next_step_cases in Hstep
        as [(Ht & rz & cz & Hr & Hc & ->)|(_ & ->)]; [|by left].
      rewrite lookup2_assign_ensure in Hacc1.
      destruct (decide _) as [[HG HT]|_]; [|by left].
      injection Hacc1 as <-. right. exists 0%nat, key, rz, cz.
      replace (i + 2 * 0)%nat with i by lia.
      split_and!; try done. destruct (key_pair key). simpl in *. congruence.
    + right. exists (S j), k, r, c.
      replace (i + 2 * S j)%nat with (i + 2 + 2 * j)%nat by lia. done.
Qed.

Lemma next_rewards_loop_total results keys i acc :
  (∀ j, (j < length keys)%nat →
        is_BigNumber (at_index results (i + 2 * j))
        ∧ is_BigNumber (at_index results (i + 2 * j + 1))) →
  ∃ acc', next_rewards_loop results keys i acc = Ok acc'.
Proof.
  revert i acc. induction keys as [|key rest IH]; intros i acc Hwf; simpl.
  - by eexists.
  - destruct (Hwf 0%nat) as [[r Hr] [c Hc]]; [simpl; lia|].
    replace (i + 2 * 0)%nat with i in * by lia.
    rewrite Hr, Hc. unfold next_step.
    assert (∀ acc1, ∃ acc',
               next_rewards_loop results rest (i + 2) acc1 = Ok acc')
      as Hrest.
    { intros acc1. apply IH. intros j Hj.
      replace (i + 2 + 2 * j)%nat with (i + 2 * S j)%nat by lia.
      apply Hwf. simpl. lia. }
    destruct (truthy key); [|apply Hrest].
    destruct (key_pair key) as [G T]. simpl. apply Hrest.
Qed.

(** C3. On a non-empty key list with its matching result list (two
    BigNumbers per key), [assignNextRewards] completes, and in the
    [nextRewards] it publishes every entry is the exact integer difference
    reward_per_gauge - claims_per_gauge read for a key of its pair, and
    each key that is the last one of its pair has its own difference
    stored, whatever was read for the other pairs. Nothing clamps the
    difference: it is stored as it is, negative included. *)
Theorem assignNextRewards_stores_difference st
    (keys : list string) (results : list jsval) :
  keys ≠ [] →
  length results = (2 * length keys)%nat →
  Forall is_BigNumber results →
  ∃ st',
    assignNextRewards st keys results = Ok st'
    ∧ (∀ G T v,
         lookup2 (nextRewards st') G T = Some v →
         ∃ (j : nat) key r c,
           keys !! j = Some key ∧ key ≠ EmptyString ∧ key_pair key = (G, T)
           ∧ results !! (2 * j)%nat = Some (JBig r)
           ∧ results !! (2 * j + 1)%nat = Some (JBig c)
           ∧ v = JBig (r - c))
    ∧ (∀ (j : nat) key r c,
         keys !! j = Some key → key ≠ EmptyString →
         results !! (2 * j)%nat = Some (JBig r) →
         results !! (2 * j + 1)%nat = Some (JBig c) →
         (∀ (j' : nat) key', (j < j')%nat → keys !! j' = Some key' →
                             key' ≠ EmptyString →
                             key_pair key' ≠ key_pair key) →
         lookup2 (nextRewards st') (key_pair key).1 (key_pair key).2
         = Some (JBig (r - c))).
Proof.
  intros Hkeys Hlen Hbig.
  destruct (next_rewards_loop_total results keys 0 ∅) as [table Htable].
  { intros j Hj. rewrite Forall_lookup in Hbig.
    destruct (lookup_lt_is_Some_2 results (2 * j)) as [r Hr]; [lia|].
    destruct (lookup_lt_is_Some_2 results (2 * j + 1)) as [c Hc]; [lia|].
    unfold at_index. rewrite !Nat.add_0_l, Hr, Hc. simpl. split; eauto. }
  exists (set_nextRewards st table). split.
  { unfold assignNextRewards. rewrite Htable.
    destruct results as [|v results];
      [destruct keys; [done|simpl in Hlen; lia]|].
    destruct keys as [|key keys]; done. }
  simpl. split.
  - intros G T v Hv.
    destruct (next_rewards_loop_sound _ _ _ _ _ _ _ _ Htable Hv)
      as [Hempty|(j & key & r & c & Hk & Ht & Hp & Hr & Hc & ->)].
    { rewrite lookup2_empty in Hempty. done. }
    exists j, key, r, c. simpl in Hr, Hc.
    rewrite <- !at_index_JBig, <- truthy_nonempty. done.
  - intros j key r c Hk Hne Hr Hc Hlast.
    destruct (next_rewards_loop_last _ _ _ _ _ j key Htable Hk)
      as (r' & c' & Hr' & Hc' & Hl).
    { by apply truthy_nonempty. }
    { intros j' k' Hlt Hk' Ht'. apply (Hlast j' k'); [done|done|].
      by apply truthy_nonempty. }
    simpl in Hr', Hc'. rewrite at_index_JBig in Hr', Hc'.
    rewrite Hr in Hr'. rewrite Hc in Hc'.
    injection Hr' as <-. injection Hc' as <-. done.
Qed.

(** *** The refresh cycle *)

Lemma settled_assignNextRewards_frame st keys results :
  let st' := settled st (assignNextRewards st keys results) in
  currentRewards st' = currentRewards st ∧ claimable st' = claimable st
  ∧ isLoading st' = isLoading st ∧ currentPeriod st' = currentPeriod st.
Proof.
  unfold assignNextRewards. destruct (_ || _); [done|].
  by destruct (next_rewards_loop _ _ _ _).
Qed.

Lemma settled_assignBribes_isLoading st keys results :
  isLoading (settled st (assignBribes st keys results)) = false →
  isLoading st = false ∨ (keys ≠ [] ∧ results ≠ []).
Proof.
  destruct keys as [|key keys].
  { rewrite assignBribes_nil_keys. by left. }
  destruct results as [|v results].
  { rewrite assignBribes_nil_results. by left. }
  intros _. by right.
Qed.

Lemma getSharedStuffFromBribes_isLoading chain web3 st w st' w' :
  getSharedStuffFromBribes chain web3 st w = (Ok st', w') →
  isLoading st' = isLoading st
  ∧ currentRewards st' = currentRewards st ∧ claimable st' = claimable st.
Proof.
  unfold getSharedStuffFromBribes, bind, providers_newEthCallProvider, tryAll.
  destruct (newEthCallProvider chain _); [|discriminate].
  destruct (transport chain _); [|discriminate].
  simpl. by intros [= <- _].
Qed.

(** What a refresh leaves: the state as it was, or the state after the two
    aggregation calls of the cycle. *)
Lemma refresh_state chain web3 st w :
  fst (refresh chain web3 st w) = st
  ∨ ∃ keys results nkeys nresults,
      fst (refresh chain web3 st w)
      = settled (settled st (assignBribes st keys results))
          (assignNextRewards (settled st (assignBribes st keys results))
             nkeys nresults).
Proof.
  unfold refresh, getBribes, bind.
  destruct (all2 _ _ w) as [[[rpg2 rpg3]|] w1]; [|by left].
  destruct (all3 _ _ _ w1) as [[[[[k2 r2] [k3 r3]] [kn rn]]|] w2]; [|by left].
  right. by exists (k2 ++ k3), (r2 ++ r3), kn, rn.
Qed.

Lemma getBribes_when_idle chain web3 st w :
  idle web3 (gauges w) = true →
  getBribes chain web3 st w = (Ok st, w).
Proof.
  intros Hidle. unfold getBribes, bind, all2.
  rewrite !getRewardsPerGauges_when_idle by done.
  assert (idle web3 (@nil addresses) = true) as Hnil by apply idle_nil.
  unfold all3, getRewardsPerUser, getNextPeriodRewards. rewrite Hnil.
  simpl. done.
Qed.

Lemma getRewardsPerGauges_no_token chain web3 contract w rpg w' :
  no_token_discovered chain →
  getRewardsPerGauges chain web3 contract w = (Ok rpg, w') →
  Forall (fun v => discovered (Some v) = []) rpg.
Proof.
  intros Hnone.
  unfold getRewardsPerGauges, bind, useCurve_gauges,
    providers_newEthCallProvider, tryAll_addresses.
  destruct (idle web3 (gauges w)).
  { intros [= <- _]. constructor. }
  destruct (newEthCallProvider chain _); [|discriminate].
  destruct (transport chain _); [|discriminate].
  simpl. intros [= <- _].
  apply Forall_forall. intros v Hv.
  apply list_elem_of_fmap in Hv as (q & -> & Hq).
  apply list_elem_of_fmap in Hq as (g & -> & _). apply Hnone.
Qed.

Lemma user_loop_no_token contract userAddress gs rpg :
  Forall (fun v => discovered (Some v) = []) rpg →
  user_loop contract userAddress gs rpg = (gs, [], []).
Proof.
  revert rpg. induction gs as [|g gs IH]; intros rpg Hrpg; [done|].
  cbn [user_loop]. rewrite IH by (destruct Hrpg; [constructor|done]).
  assert (discovered (head rpg) = []) as -> by (by destruct Hrpg).
  done.
Qed.

Lemma next_loop_no_token contract gs rpg :
  Forall (fun v => discovered (Some v) = []) rpg →
  next_loop contract gs rpg = ([], []).
Proof.
  revert rpg. induction gs as [|g gs IH]; intros rpg Hrpg; [done|].
  cbn [next_loop]. rewrite IH by (destruct Hrpg; [constructor|done]).
  assert (discovered (head rpg) = []) as -> by (by destruct Hrpg).
  done.
Qed.

Lemma getRewardsPerUser_no_token chain web3 contract rpg w keys results w' :
  Forall (fun v => discovered (Some v) = []) rpg →
  getRewardsPerUser chain web3 contract rpg w = (Ok (keys, results), w') →
  keys = [].
Proof.
  intros Hrpg.
  unfold getRewardsPerUser, bind, providers_newEthCallProvider, on_gauges.
  destruct (idle web3 rpg); [by intros [= <- _ _]|].
  destruct (newEthCallProvider chain _); [|discriminate].
  rewrite user_loop_no_token by done. unfold tryAll. simpl.
  destruct (transport chain []); [|discriminate]. by intros [= <- _ _].
Qed.

Lemma getNextPeriodRewards_no_token chain web3 contract rpg w keys results w' :
  Forall (fun v => discovered (Some v) = []) rpg →
  getNextPeriodRewards chain web3 contract rpg w = (Ok (keys, results), w') →
  keys = [].
Proof.
  intros Hrpg.
  unfold getNextPeriodRewards, bind, providers_newEthCallProvider,
    useCurve_gauges.
  destruct (idle web3 rpg); [by intros [= <- _ _]|].
  destruct (newEthCallProvider chain _); [|discriminate].
  rewrite next_loop_no_token by done. unfold tryAll. simpl.
  destruct (transport chain []); [|discriminate]. by intros [= <- _ _].
Qed.

Lemma refresh_no_token chain web3 st w :
  no_token_discovered chain → fst (refresh chain web3 st w) = st.
Proof.
  intros Hnone. unfold refresh, getBribes, bind, all2.
  destruct (getRewardsPerGauges chain web3 curveBribeV2Contract w)
    as [r2 w2] eqn:E2.
  destruct (getRewardsPerGauges chain web3 curveBribeV3Contract w2)
    as [r3 w3] eqn:E3.
  destruct r2 as [rpg2|]; [|done]. destruct r3 as [rpg3|]; [|done].
  pose proof (getRewardsPerGauges_no_token _ _ _ _ _ _ Hnone E2) as H2.
  pose proof (getRewardsPerGauges_no_token _ _ _ _ _ _ Hnone E3) as H3.
  unfold all3.
  destruct (getRewardsPerUser chain web3 curveBribeV2Contract rpg2 w3)
    as [u2 w4] eqn:Eu2.
  destruct (getRewardsPerUser chain web3 curveBribeV2Contract rpg3 w4)
    as [u3 w5] eqn:Eu3.
  destruct (getNextPeriodRewards chain web3 curveBribeV3Contract rpg3 w5)
    as [n3 w6] eqn:En3.
  destruct u2 as [[k2 r2]|]; [|done]. destruct u3 as [[k3 r3]|]; [|done].
  destruct n3 as [[kn rn]|]; [|done].
  rewrite (getRewardsPerUser_no_token _ _ _ _ _ _ _ _ H2 Eu2).
  rewrite (getRewardsPerUser_no_token _ _ _ _ _ _ _ _ H3 Eu3).
  rewrite (getNextPeriodRewards_no_token _ _ _ _ _ _ _ _ H3 En3).
  simpl. rewrite assignBribes_nil_keys. simpl.
  rewrite assignNextRewards_nil_keys. done.
Qed.

Lemma refresh_short_circuit chain web3 st w :
  isActive web3 = false ∨ provider web3 = None ∨ gauges w = []
  ∨ no_token_discovered chain →
  fst (refresh chain web3 st w) = st.
Proof.
  intros [H|[H|[H|H]]]; [| | |by apply refresh_no_token];
    unfold refresh; rewrite getBribes_when_idle; try done.
  - by apply idle_inactive.
  - by apply idle_no_provider.
  - rewrite H. apply idle_nil.
Qed.

(** The two mappings written by [assignBribes] stay on the same pairs in
    every state the context reaches. *)
Lemma reachable_same_entries lastThursday lastThursday' st :
  reachable lastThursday lastThursday' st →
  same_entries (currentRewards st) (claimable st).
Proof.
  induction 1 as [|chain web3 st w st' w' _ IH Hshared|chain web3 st w _ IH].
  - apply same_entries_refl.
  - apply getSharedStuffFromBribes_isLoading in Hshared as (_ & -> & ->).
    done.
  - destruct (refresh_state chain web3 st w)
      as [->|(keys & results & nkeys & nresults & ->)]; [done|].
    destruct (settled_assignNextRewards_frame
                (settled st (assignBribes st keys results)) nkeys nresults)
      as (-> & -> & _).
    by apply settled_assignBribes_same_entries.
Qed.

(** What a refresh leaves, tied to the cycle it ran: the state as it
    was when the cycle rejected, and otherwise the state after the two
    aggregation calls on the lists the fetches of that cycle returned. *)
Lemma refresh_fetched chain web3 st w :
  fst (refresh chain web3 st w) = st
  ∨ ∃ keys results nkeys nresults,
      fetched chain web3 w keys results nkeys nresults
      ∧ fst (refresh chain web3 st w)
        = settled (settled st (assignBribes st keys results))
            (assignNextRewards (settled st (assignBribes st keys results))
               nkeys nresults).
Proof.
  unfold refresh, getBribes, bind, all2.
  destruct (getRewardsPerGauges chain web3 curveBribeV2Contract w)
    as [d2 w1] eqn:E2.
  destruct (getRewardsPerGauges chain web3 curveBribeV3Contract w1)
    as [d3 w2] eqn:E3.
  destruct d2 as [rpg2|]; [|by left]. destruct d3 as [rpg3|]; [|by left].
  unfold all3.
  destruct (getRewardsPerUser chain web3 curveBribeV2Contract rpg2 w2)
    as [u2 w3] eqn:Eu2.
  destruct (getRewardsPerUser chain web3 curveBribeV2Contract rpg3 w3)
    as [u3 w4] eqn:Eu3.
  destruct (getNextPeriodRewards chain web3 curveBribeV3Contract rpg3 w4)
    as [n3 w5] eqn:En3.
  destruct u2 as [[k2 r2]|]; [|by left]. destruct u3 as [[k3 r3]|]; [|by left].
  destruct n3 as [[kn rn]|]; [|by left].
  right. exists (k2 ++ k3), (r2 ++ r3), kn, rn. split; [|done].
  by exists rpg2, rpg3, w1, w2, k2, r2, w3, k3, r3, w4, w5.
Qed.

(** C10. The loading flag is only ever cleared by [assignBribes] run on a
    non-empty key list and a non-empty result list: a run of
    [assignBribes] that leaves it false either found it false or had both
    lists non-empty, and neither [assignNextRewards] nor the period query
    touches it. A refresh that turns the flag from true to false is one
    whose fetches all returned, on whose merged per-user lists, both
    non-empty, [assignBribes] ran to its end and cleared the flag, and the
    state the refresh leaves is the one that run published, followed by
    [assignNextRewards] on the projection lists. A refresh that
    short-circuits (inactive wallet, no provider, no gauge, or no token
    discovered) leaves the whole state as it was, so that after mount the
    flag is still true. *)
Theorem isLoading_cleared_only_by_assignBribes :
  (∀ st (keys : list string) (results : list jsval),
     isLoading (settled st (assignBribes st keys results)) = false →
     isLoading st = false ∨ (keys ≠ [] ∧ results ≠ []))
  ∧ (∀ chain web3 st w,
       isLoading st = true →
       isLoading (fst (refresh chain web3 st w)) = false →
       ∃ (keys : list string) (results : list jsval)
         (nkeys : list string) (nresults : list jsval) st1,
         fetched chain web3 w keys results nkeys nresults
         ∧ keys ≠ [] ∧ results ≠ []
         ∧ assignBribes st keys results = Ok st1 ∧ isLoading st1 = false
         ∧ fst (refresh chain web3 st w)
           = settled st1 (assignNextRewards st1 nkeys nresults))
  ∧ (∀ st (keys : list string) (results : list jsval),
       isLoading (settled st (assignNextRewards st keys results))
       = isLoading st)
  ∧ (∀ chain web3 st w st' w',
       getSharedStuffFromBribes chain web3 st w = (Ok st', w') →
       isLoading st' = isLoading st)
  ∧ (∀ chain web3 st w,
       isActive web3 = false ∨ provider web3 = None ∨ gauges w = []
       ∨ no_token_discovered chain →
       fst (refresh chain web3 st w) = st
       ∧ isLoading (fst (refresh chain web3 st w)) = isLoading st)
  ∧ (∀ chain web3 lastThursday lastThursday' w,
       isActive web3 = false ∨ provider web3 = None ∨ gauges w = []
       ∨ no_token_discovered chain →
       isLoading
         (fst (refresh chain web3 (initialState lastThursday lastThursday')
                 w))
       = true).
Proof.
  split_and!.
  - apply settled_assignBribes_isLoading.
  - intros chain web3 st w Hst Hafter.
    destruct (refresh_fetched chain web3 st w)
      as [E|(keys & results & nkeys & nresults & Hfetched & E)];
      [rewrite E in Hafter; congruence|].
    rewrite E in Hafter.
    destruct (settled_assignNextRewards_frame
                (settled st (assignBribes st keys results)) nkeys nresults)
      as (_ & _ & Hflag & _).
    rewrite Hflag in Hafter.
    destruct (settled_assignBribes_isLoading _ _ _ Hafter)
      as [?|[Hk Hr]]; [congruence|].
    destruct (assignBribes st keys results) as [st1|] eqn:Hrun;
      simpl in Hafter, E; [|congruence].
    by exists keys, results, nkeys, nresults, st1.
  - intros st keys results.
    by destruct (settled_assignNextRewards_frame st keys results)
      as (_ & _ & -> & _).
  - intros chain web3 st w st' w' H.
    by apply getSharedStuffFromBribes_isLoading in H as (-> & _).
  - intros chain web3 st w H. by rewrite refresh_short_circuit.
  - intros chain web3 t t' w H. by rewrite refresh_short_circuit.
Qed.

(** *** The local estimate of the period *)

Lemma getLastThursday_seconds now tzs :
  getLastThursday now (1000 * tzs)
  = ((now + 1000 * tzs) / msPerDay
     - (((now + 1000 * tzs) / msPerDay + 4) mod 7 + 6) mod 7 - 3) * 86400
    - 79200 - tzs.
Proof.
  unfold getLastThursday, msPerDay, msPerHour.
  set (day := (now + 1000 * tzs) / 86400000).
  set (k := ((day + 4) mod 7 + 6) mod 7).
  replace ((day - k - 3) * 86400000 + -22 * 3600000 - 1000 * tzs)
    with (((day - k - 3) * 86400 - 79200 - tzs) * 1000) by lia.
  apply Z.div_mul. lia.
Qed.

(** X1. In a zone [tzs] seconds east of UTC the value of
    [getLastThursday()] is, in local time, a Thursday at 02:00: counted in
    local seconds from the epoch (a Thursday at 00:00) it is 7200 past a
    multiple of a week. In a zone two hours east of UTC it is therefore a
    multiple of a week, a Thursday at 00:00 UTC. *)
Theorem getLastThursday_local_thursday_2am now tzs :
  (getLastThursday now (1000 * tzs) + tzs) mod (86400 * 7) = 7200
  ∧ getLastThursday now (2 * msPerHour) mod (86400 * 7) = 0.
Proof.
  assert (∀ tzs',
    (getLastThursday now (1000 * tzs') + tzs') mod (86400 * 7) = 7200
    ∧ (tzs' = 7200 →
       getLastThursday now (1000 * tzs') mod (86400 * 7) = 0)) as Hall;
    [clear tzs; intros tzs
    |split; [apply Hall|exact (proj2 (Hall 7200) eq_refl)]].
  rewrite getLastThursday_seconds.
  set (day := (now + 1000 * tzs) / msPerDay).
  assert ((day - ((day + 4) mod 7 + 6) mod 7 - 3 - 1) mod 7 = 0) as Hday.
  { pose proof (Z.mod_pos_bound (day + 4) 7 ltac:(lia)) as Hwd.
    assert (∃ q, day + 4 = 7 * q + (day + 4) mod 7) as [q Hq]
      by (exists ((day + 4) / 7); apply Z.div_mod; lia).
    set (wd := (day + 4) mod 7) in *.
    assert (wd = 0 ∨ wd = 1 ∨ wd = 2 ∨ wd = 3 ∨ wd = 4 ∨ wd = 5 ∨ wd = 6)
      as Hcases by lia.
    destruct Hcases as [E|[E|[E|[E|[E|[E|E]]]]]]; rewrite E in *;
      match goal with
      | |- (day - ?k - 3 - 1) mod 7 = 0 =>
          let v := eval vm_compute in k in change k with v
      end.
    - replace (day - 6 - 3 - 1) with ((q - 2) * 7) by lia.
      apply Z.mod_mul. lia.
    - replace (day - 0 - 3 - 1) with ((q - 1) * 7) by lia.
      apply Z.mod_mul. lia.
    - replace (day - 1 - 3 - 1) with ((q - 1) * 7) by lia.
      apply Z.mod_mul. lia.
    - replace (day - 2 - 3 - 1) with ((q - 1) * 7) by lia.
      apply Z.mod_mul. lia.
    - replace (day - 3 - 3 - 1) with ((q - 1) * 7) by lia.
      apply Z.mod_mul. lia.
    - replace (day - 4 - 3 - 1) with ((q - 1) * 7) by lia.
      apply Z.mod_mul. lia.
    - replace (day - 5 - 3 - 1) with ((q - 1) * 7) by lia.
      apply Z.mod_mul. lia. }
  set (k := ((day + 4) mod 7 + 6) mod 7) in *.
  apply Z.mod_divide in Hday as [m Hm]; [|lia].
  split.
  - replace ((day - k - 3) * 86400 - 79200 - tzs + tzs)
      with (7200 + m * (86400 * 7)) by lia.
    rewrite Z.mod_add by lia. reflexivity.
  - intros ->.
    replace ((day - k - 3) * 86400 - 79200 - 7200)
      with (m * (86400 * 7)) by lia.
    apply Z.mod_mul. lia.
Qed.

(** X2. The value of [getLastThursday()] always lies in the past, by at
    least 3 days 22 hours and less than 10 days 22 hours: it is the one
    local Thursday 02:00 in that window, not always the latest one. *)
Theorem getLastThursday_window now tzs :
  338400000 ≤ now - 1000 * getLastThursday now (1000 * tzs) < 943200000.
Proof.
  rewrite getLastThursday_seconds. unfold msPerDay.
  set (day := (now + 1000 * tzs) / 86400000).
  pose proof (Z.mod_pos_bound ((day + 4) mod 7 + 6) 7 ltac:(lia)) as Hk.
  set (k := ((day + 4) mod 7 + 6) mod 7) in *.
  pose proof (Z.div_mod (now + 1000 * tzs) 86400000 ltac:(lia)) as Hdm.
  pose proof (Z.mod_pos_bound (now + 1000 * tzs) 86400000 ltac:(lia)) as Hm.
  fold day in Hdm. lia.
Qed.

(** *** What the fetch loops produce *)

Lemma discovered_pairs_addresses gs gs' rpg :
  map gauge gs = map gauge gs' →
  discovered_pairs gs rpg = discovered_pairs gs' rpg.
Proof.
  revert gs' rpg. induction gs as [|g gs IH]; intros [|g' gs'] rpg E;
    try discriminate; [done|].
  simpl in E. injection E as Eg Egs. simpl. by rewrite Eg, (IH gs' _ Egs).
Qed.

Lemma user_loop_keys_calls contract userAddress gs rpg :
  (user_loop contract userAddress gs rpg).1.2
  = map pair_key (discovered_pairs gs rpg)
  ∧ (user_loop contract userAddress gs rpg).2
    = flat_map (fun gt => user_calls contract userAddress gt.1 gt.2)
        (discovered_pairs gs rpg).
Proof.
  revert rpg. induction gs as [|g gs IH]; intros rpg; [done|].
  cbn [user_loop discovered_pairs]. destruct (IH (tail rpg)) as [IHk IHc].
  destruct (user_loop contract userAddress gs (tail rpg)) as [[gs' keys] calls].
  simpl in IHk, IHc. subst keys calls.
  rewrite map_app, flat_map_app, map_map.
  assert (flat_map (fun gt => user_calls contract userAddress gt.1 gt.2)
            (map (pair (gauge g)) (discovered (head rpg)))
          = flat_map (user_calls contract userAddress (gauge g))
              (discovered (head rpg))) as ->.
  { induction (discovered (head rpg)) as [|t ts IHt]; [done|].
    simpl. by rewrite IHt. }
  by destruct (discovered (head rpg)).
Qed.

Lemma user_loop_descriptors contract userAddress gs rpg :
  length (user_loop contract userAddress gs rpg).1.1 = length gs
  ∧ map gauge (user_loop contract userAddress gs rpg).1.1 = map gauge gs.
Proof.
  revert rpg. induction gs as [|g gs IH]; intros rpg; [done|].
  cbn [user_loop]. destruct (IH (tail rpg)) as [IHl IHm].
  destruct (user_loop contract userAddress gs (tail rpg)) as [[gs' keys] calls].
  simpl in IHl, IHm.
  destruct (discovered (head rpg)); simpl; by rewrite IHl, IHm.
Qed.

Lemma next_loop_keys_calls contract gs rpg :
  next_loop contract gs rpg
  = (map pair_key (discovered_pairs gs rpg),
     flat_map (fun gt => next_calls contract gt.1 gt.2)
       (discovered_pairs gs rpg)).
Proof.
  revert rpg. induction gs as [|g gs IH]; intros rpg; [done|].
  cbn [next_loop discovered_pairs]. rewrite IH.
  rewrite map_app, flat_map_app, map_map.
  assert (flat_map (fun gt => next_calls contract gt.1 gt.2)
            (map (pair (gauge g)) (discovered (head rpg)))
          = flat_map (next_calls contract (gauge g))
              (discovered (head rpg))) as ->.
  { induction (discovered (head rpg)) as [|t ts IHt]; [done|].
    simpl. by rewrite IHt. }
  done.
Qed.

(** Blocks of equal length laid end to end are found again by position. *)
Lemma flat_map_blocks {A B} (n : nat) (f : A → list B) (l : list A) :
  (∀ a, length (f a) = n) →
  length (flat_map f l) = (n * length l)%nat
  ∧ ∀ (j k : nat) a,
      l !! j = Some a → (k < n)%nat →
      flat_map f l !! (n * j + k)%nat = f a !! k.
Proof.
  intros Hn. induction l as [|x l [IHlen IHl]]; simpl.
  - split; [lia|]. intros j k a Hj. done.
  - split; [rewrite length_app, Hn, IHlen; lia|].
    intros j k a Hj Hk. destruct j as [|j].
    + injection Hj as ->. rewrite Nat.mul_0_r. simpl.
      apply lookup_app_l. rewrite Hn. lia.
    + simpl in Hj.
      replace (n * S j + k)%nat with (length (f x) + (n * j + k))%nat
        by (rewrite Hn; lia).
      rewrite lookup_app_r by lia.
      replace (length (f x) + (n * j + k) - length (f x))%nat
        with (n * j + k)%nat by lia.
      by apply IHl.
Qed.

Lemma keys_lookup_pair pairs (j : nat) key :
  map pair_key pairs !! j = Some key →
  ∃ gt, pairs !! j = Some gt ∧ key = allowanceKey gt.1 gt.2.
Proof.
  rewrite list_lookup_fmap. destruct (pairs !! j) as [gt|]; [|done].
  intros [= <-]. by exists gt.
Qed.

Lemma getRewardsPerUser_run chain web3 contract rpg w :
  idle web3 rpg = false → responsive chain web3 →
  getRewardsPerUser chain web3 contract rpg w
  = (Ok (map pair_key (discovered_pairs (gauges w) rpg),
         map (eth_call chain)
           (flat_map (fun gt => user_calls contract PLACEHOLDER gt.1 gt.2)
              (discovered_pairs (gauges w) rpg))),
     {| gauges := (user_loop contract PLACEHOLDER (gauges w) rpg).1.1;
        issued := issued w
                  ++ [flat_map
                        (fun gt => user_calls contract PLACEHOLDER gt.1 gt.2)
                        (discovered_pairs (gauges w) rpg)] |}).
Proof.
  intros Hidle [Hconn Htrans].
  unfold getRewardsPerUser, bind, providers_newEthCallProvider, on_gauges.
  rewrite Hidle, Hconn.
  change (or_else PLACEHOLDER (address web3)) with PLACEHOLDER.
  destruct (user_loop_keys_calls contract PLACEHOLDER (gauges w) rpg)
    as [Hk Hc].
  destruct (user_loop contract PLACEHOLDER (gauges w) rpg)
    as [[gs keys] calls].
  simpl in Hk, Hc. subst keys calls.
  unfold tryAll. rewrite Htrans. done.
Qed.

Lemma getNextPeriodRewards_run chain web3 contract rpg w :
  idle web3 rpg = false → responsive chain web3 →
  getNextPeriodRewards chain web3 contract rpg w
  = (Ok (map pair_key (discovered_pairs (gauges w) rpg),
         map (eth_call chain)
           (flat_map (fun gt => next_calls contract gt.1 gt.2)
              (discovered_pairs (gauges w) rpg))),
     {| gauges := gauges w;
        issued := issued w
                  ++ [flat_map (fun gt => next_calls contract gt.1 gt.2)
                        (discovered_pairs (gauges w) rpg)] |}).
Proof.
  intros Hidle [Hconn Htrans].
  unfold getNextPeriodRewards, bind, providers_newEthCallProvider,
    useCurve_gauges.
  rewrite Hidle, Hconn, next_loop_keys_calls.
  unfold tryAll. rewrite Htrans. done.
Qed.

Lemma getRewardsPerGauges_run chain web3 contract w :
  idle web3 (gauges w) = false → responsive chain web3 →
  getRewardsPerGauges chain web3 contract w
  = (Ok (discovery_of chain contract (gauges w)),
     {| gauges := gauges w;
        issued := issued w
                  ++ [map (fun g => Bribe.rewards_per_gauge contract (gauge g))
                        (gauges w)] |}).
Proof.
  intros Hidle [Hconn Htrans].
  unfold getRewardsPerGauges, bind, useCurve_gauges,
    providers_newEthCallProvider, tryAll_addresses.
  rewrite Hidle, Hconn, Htrans. unfold discovery_of.
  by rewrite map_map.
Qed.

Lemma getRewardsPerUser_cases chain web3 contract rpg w :
  (getRewardsPerUser chain web3 contract rpg w = (Ok ([], []), w)
   ∧ idle web3 rpg = true)
  ∨ getRewardsPerUser chain web3 contract rpg w = (Throw, w)
  ∨ (idle web3 rpg = false
     ∧ gauges (getRewardsPerUser chain web3 contract rpg w).2
       = (user_loop contract PLACEHOLDER (gauges w) rpg).1.1
     ∧ ((getRewardsPerUser chain web3 contract rpg w).1 = Throw
        ∨ (getRewardsPerUser chain web3 contract rpg w).1
          = Ok (map pair_key (discovered_pairs (gauges w) rpg),
                map (eth_call chain)
                  (flat_map
                     (fun gt => user_calls contract PLACEHOLDER gt.1 gt.2)
                     (discovered_pairs (gauges w) rpg))))).
Proof.
  unfold getRewardsPerUser, bind, providers_newEthCallProvider, on_gauges.
  destruct (idle web3 rpg) eqn:Hidle; [by left|].
  destruct (newEthCallProvider chain _); [|right; by left].
  right. right. split; [done|].
  change (or_else PLACEHOLDER (address web3)) with PLACEHOLDER.
  destruct (user_loop_keys_calls contract PLACEHOLDER (gauges w) rpg)
    as [Hk Hc].
  destruct (user_loop contract PLACEHOLDER (gauges w) rpg)
    as [[gs keys] calls].
  simpl in Hk, Hc. subst keys calls. unfold tryAll.
  destruct (transport chain _); simpl; (split; [done|]); [by right|by left].
Qed.

Lemma getNextPeriodRewards_cases chain web3 contract rpg w :
  gauges (getNextPeriodRewards chain web3 contract rpg w).2 = gauges w
  ∧ ((getNextPeriodRewards chain web3 contract rpg w).1 = Throw
     ∨ (getNextPeriodRewards chain web3 contract rpg w).1 = Ok ([], [])
       ∧ idle web3 rpg = true
     ∨ (getNextPeriodRewards chain web3 contract rpg w).1
       = Ok (map pair_key (discovered_pairs (gauges w) rpg),
             map (eth_call chain)
               (flat_map (fun gt => next_calls contract gt.1 gt.2)
                  (discovered_pairs (gauges w) rpg)))
       ∧ idle web3 rpg = false).
Proof.
  unfold getNextPeriodRewards, bind, providers_newEthCallProvider,
    useCurve_gauges.
  destruct (idle web3 rpg) eqn:Hidle; [split; [done|]; right; by left|].
  destruct (newEthCallProvider chain _); [|split; [done|by left]].
  rewrite next_loop_keys_calls. unfold tryAll.
  destruct (transport chain _); simpl; (split; [done|]);
    [right; by right|by left].
Qed.

(** X3. Discovery keeps the order of the gauges: when it returns a
    non-empty list, that list has one entry per gauge and its i-th entry is
    what [rewards_per_gauge] of the given registry answered for the i-th
    gauge; it sent one batch, of one call per gauge; and on every path it
    leaves the gauge descriptors as they are. *)
Theorem getRewardsPerGauges_positional chain web3 contract w rpg w' :
  getRewardsPerGauges chain web3 contract w = (Ok rpg, w') →
  gauges w' = gauges w
  ∧ (rpg = [] ∧ w' = w
     ∨ length rpg = length (gauges w)
       ∧ issued w'
         = issued w
           ++ [map (fun g => Bribe.rewards_per_gauge contract (gauge g))
                 (gauges w)]
       ∧ ∀ (i : nat) g,
           gauges w !! i = Some g →
           rpg !! i
           = Some (eth_call_addresses chain
                     (Bribe.rewards_per_gauge contract (gauge g)))).
Proof.
  unfold getRewardsPerGauges, bind, useCurve_gauges,
    providers_newEthCallProvider, tryAll_addresses.
  destruct (idle web3 (gauges w)).
  { intros [= <- <-]. split; [done|]. by left. }
  destruct (newEthCallProvider chain _); [|discriminate].
  destruct (transport chain _); [|discriminate].
  simpl. intros [= <- <-]. simpl. split; [done|]. right.
  split; [by rewrite !length_map|]. split; [done|].
  intros i g Hg. by rewrite !list_lookup_fmap, Hg.
Qed.

(** X4. The per-user fetch returns its two lists in lock-step: three
    results per key, and the j-th key is the composite key of a (gauge,
    token) pair whose [reward_per_token], [active_period] and [claimable]
    answers (the last one for the placeholder address) sit at positions
    3j, 3j+1 and 3j+2 of the result list. *)
Theorem getRewardsPerUser_lock_step chain web3 contract rpg w
    (keys : list string) (results : list jsval) w' :
  getRewardsPerUser chain web3 contract rpg w = (Ok (keys, results), w') →
  length results = (3 * length keys)%nat
  ∧ ∀ (j : nat) key,
      keys !! j = Some key →
      ∃ g t,
        key = allowanceKey g t
        ∧ results !! (3 * j)%nat
          = Some (eth_call chain (Bribe.reward_per_token contract g t))
        ∧ results !! (3 * j + 1)%nat
          = Some (eth_call chain (Bribe.active_period contract g t))
        ∧ results !! (3 * j + 2)%nat
          = Some (eth_call chain
                    (Bribe.claimable contract PLACEHOLDER g t)).
Proof.
  intros Hrun.
  destruct (getRewardsPerUser_cases chain web3 contract rpg w)
    as [[E _]|[E|(_ & _ & [E|E])]]; rewrite Hrun in E; try discriminate.
  { injection E as -> -> _. split; [done|]. intros j key Hj. done. }
  simpl in E. injection E as -> ->.
  destruct (flat_map_blocks 3
              (fun gt => user_calls contract PLACEHOLDER gt.1 gt.2)
              (discovered_pairs (gauges w) rpg)) as [Hlen Hblock]; [done|].
  split; [by rewrite !length_map, Hlen|].
  intros j key Hj. apply keys_lookup_pair in Hj as ([g t] & Hgt & ->).
  exists g, t. split; [done|]. rewrite !list_lookup_fmap.
  replace (3 * j)%nat with (3 * j + 0)%nat at 1 by lia.
  rewrite !(Hblock _ _ _ Hgt) by lia. done.
Qed.

(** X5. The projection fetch returns its two lists in lock-step, two
    results per key: the [reward_per_gauge] and [claims_per_gauge] answers
    of the pair of the j-th key sit at positions 2j and 2j+1. Unlike the
    per-user fetch it never touches the gauge descriptors, whatever its
    outcome. *)
Theorem getNextPeriodRewards_lock_step chain web3 contract rpg w :
  gauges (snd (getNextPeriodRewards chain web3 contract rpg w)) = gauges w
  ∧ ∀ (keys : list string) (results : list jsval),
      fst (getNextPeriodRewards chain web3 contract rpg w)
      = Ok (keys, results) →
      length results = (2 * length keys)%nat
      ∧ ∀ (j : nat) key,
          keys !! j = Some key →
          ∃ g t,
            key = allowanceKey g t
            ∧ results !! (2 * j)%nat
              = Some (eth_call chain (Bribe.reward_per_gauge contract g t))
            ∧ results !! (2 * j + 1)%nat
              = Some (eth_call chain (Bribe.claims_per_gauge contract g t)).
Proof.
  destruct (getNextPeriodRewards_cases chain web3 contract rpg w)
    as [Hg Hr].
  split; [exact Hg|]. intros keys results Hrun.
  destruct Hr as [E|[[E _]|[E _]]]; rewrite Hrun in E; try discriminate.
  { injection E as -> ->. split; [done|]. intros j key Hj. done. }
  injection E as -> ->.
  destruct (flat_map_blocks 2
              (fun gt => next_calls contract gt.1 gt.2)
              (discovered_pairs (gauges w) rpg)) as [Hlen Hblock]; [done|].
  split; [by rewrite !length_map, Hlen|].
  intros j key Hj. apply keys_lookup_pair in Hj as ([g t] & Hgt & ->).
  exists g, t. split; [done|]. rewrite !list_lookup_fmap.
  replace (2 * j)%nat with (2 * j + 0)%nat at 1 by lia.
  rewrite !(Hblock _ _ _ Hgt) by lia. done.
Qed.

(** X6. On the same discovery result and the same gauges (by address) the
    per-user fetch and the projection fetch return the same key list,
    whichever registries they query. *)
Theorem fetches_share_their_keys chain web3 contract contract' rpg w w'
    (keys keys' : list string) (results results' : list jsval) :
  map gauge (gauges w) = map gauge (gauges w') →
  fst (getRewardsPerUser chain web3 contract rpg w) = Ok (keys, results) →
  fst (getNextPeriodRewards chain web3 contract' rpg w')
  = Ok (keys', results') →
  keys = keys'.
Proof.
  intros Haddr Hu Hn.
  assert (keys = if idle web3 rpg then []
                 else map pair_key (discovered_pairs (gauges w) rpg)) as ->.
  { destruct (getRewardsPerUser_cases chain web3 contract rpg w)
      as [[E Hidle]|[E|(Hidle & _ & [E|E])]]; rewrite E in Hu;
      try discriminate; rewrite Hidle; simpl in Hu; congruence. }
  assert (keys' = if idle web3 rpg then []
                  else map pair_key (discovered_pairs (gauges w') rpg)) as ->.
  { destruct (getNextPeriodRewards_cases chain web3 contract' rpg w')
      as [_ [E|[[E Hidle]|[E Hidle]]]]; rewrite E in Hn;
      try discriminate; rewrite Hidle; congruence. }
  by rewrite (discovered_pairs_addresses _ _ _ Haddr).
Qed.

(** X7. The per-user fetch only ever extends the gauge descriptors: on
    every path it keeps their number, their order and their addresses; a
    gauge's [rewardPerGauge] afterwards starts with what it held before;
    and a gauge for which nothing was discovered is left exactly as it
    was, its list not even initialised. *)
Theorem getRewardsPerUser_extends_gauges chain web3 contract rpg w :
  let w' := snd (getRewardsPerUser chain web3 contract rpg w) in
  length (gauges w') = length (gauges w)
  ∧ map gauge (gauges w') = map gauge (gauges w)
  ∧ ∀ (i : nat) g,
      gauges w !! i = Some g →
      ∃ g' extra,
        gauges w' !! i = Some g'
        ∧ default [] (rewardPerGauge g')
          = default [] (rewardPerGauge g) ++ extra
        ∧ (discovered (rpg !! i) = [] → g' = g).
Proof.
  intros w'. unfold w'.
  destruct (getRewardsPerUser_cases chain web3 contract rpg w)
    as [[E _]|[E|(_ & Hg & _)]].
  1,2: rewrite E; simpl; split; [done|]; split; [done|];
    intros i g Hi; exists g, []; by rewrite app_nil_r.
  rewrite Hg.
  destruct (user_loop_descriptors contract PLACEHOLDER (gauges w) rpg)
    as [Hlen Hmap].
  split; [done|]. split; [done|]. intros i g Hi.
  rewrite (user_loop_gauges _ _ _ _ _ _ Hi).
  destruct (discovered (rpg !! i)) as [|t ts].
  - exists g, []. by rewrite app_nil_r.
  - exists (push_rewards g (t :: ts)), (t :: ts). done.
Qed.

(** *** Keys that are not well formed *)

Lemma split_prefix g s :
  no_underscore g = true →
  split underscore (g +:+ String underscore s) = g :: split underscore s.
Proof.
  intros Hg. induction g as [|c rest IH]; simpl in *; [done|].
  apply andb_true_iff in Hg as [Hc Hrest].
  apply negb_true_iff in Hc. rewrite Hc, (IH Hrest). done.
Qed.

(** X8. How a key is filed when it is not gauge, underscore, token: a key
    without underscore is filed under its own normalisation and that of
    [undefined]; whatever follows a second underscore is ignored, so that
    such a key is filed under the same pair as the key without that
    tail. *)
Theorem key_pair_malformed (g t tail : string) :
  no_underscore g = true → no_underscore t = true →
  key_pair g = (toAddress (Some g), toAddress None)
  ∧ key_pair (allowanceKey g (t +:+ String underscore tail))
    = (toAddress (Some g), toAddress (Some t))
  ∧ key_pair (allowanceKey g (t +:+ String underscore tail))
    = key_pair (allowanceKey g t).
Proof.
  intros Hg Ht. unfold key_pair, destructure_key, allowanceKey.
  rewrite (split_no_sep g Hg), !(split_prefix g _ Hg),
    (split_prefix t _ Ht), (split_no_sep t Ht).
  done.
Qed.

(** X9. Building the composite key of two addresses and reading it back
    as [assignBribes] and [assignNextRewards] do gives the normalised
    gauge and the normalised token: the key of (g, t) is filed under
    (toAddress(g), toAddress(t)). *)
Theorem key_pair_allowanceKey (g t : string) :
  is_address g = true → is_address t = true →
  key_pair (allowanceKey g t) = (toAddress (Some g), toAddress (Some t)).
Proof.
  intros Hg%address_no_underscore Ht%address_no_underscore.
  unfold key_pair, destructure_key.
  by rewrite (split_allowanceKey g t Hg Ht).
Qed.

(** *** Values and failures of assignBribes *)

Lemma record_bribe_lookup key r p c acc G T :
  lookup2 (_currentRewards (record_bribe key r p c acc)) G T
  = (if decide (key_pair key = (G, T)) then Some r
     else lookup2 (_currentRewards acc) G T)
  ∧ lookup2 (_claimable (record_bribe key r p c acc)) G T
    = (if decide (key_pair key = (G, T)) then Some c
       else lookup2 (_claimable acc) G T).
Proof.
  unfold record_bribe. destruct (key_pair key) as [G0 T0]. simpl.
  rewrite !lookup2_assign_ensure.
  destruct (decide (G0 = G ∧ T0 = T)) as [[-> ->]|Hne].
  - by rewrite !decide_True.
  - rewrite !decide_False; [done|intros [= -> ->]; by apply Hne..].
Qed.

Lemma bribes_loop_frame cp results keys i acc acc' G T :
  bribes_loop cp results keys i acc = Ok acc' →
  (∀ (j : nat) key,
     keys !! j = Some key →
     passes cp key (at_index results (i + 3 * j))
       (at_index results (i + 3 * j + 1)) →
     key_pair key ≠ (G, T)) →
  lookup2 (_currentRewards acc') G T = lookup2 (_currentRewards acc) G T
  ∧ lookup2 (_claimable acc') G T = lookup2 (_claimable acc) G T.
Proof.
  revert i acc. induction keys as [|key rest IH]; intros i acc;
    cbn [bribes_loop].
  - by intros [= <-].
  - destruct (bribes_step cp key _ _ _ acc) as [acc1|] eqn:Hstep;
      cbn [obind]; [|discriminate].
    intros Hloop Hother.
    destruct (IH _ _ Hloop) as [-> ->].
    { intros j k Hk Hp. apply (Hother (S j) k Hk).
      by replace (i + 3 * S j)%nat with (i + 3 + 3 * j)%nat by lia. }
    apply bribes_step_cases in Hstep as [(-> & Hpass)|(-> & _)]; [|done].
    destruct (record_bribe_lookup key (at_index results i)
                (at_index results (i + 1)) (at_index results (i + 2))
                acc G T) as [-> ->].
    assert (key_pair key ≠ (G, T)) as Hne.
    { apply (Hother 0%nat key eq_refl).
      by replace (i + 3 * 0)%nat with i by lia. }
    by rewrite !decide_False.
Qed.

Lemma bribes_loop_last cp results keys i acc acc' (j : nat) key :
  bribes_loop cp results keys i acc = Ok acc' →
  keys !! j = Some key →
  passes cp key (at_index results (i + 3 * j))
    (at_index results (i + 3 * j + 1)) →
  (∀ (j' : nat) key',
     (j < j')%nat → keys !! j' = Some key' →
     passes cp key' (at_index results (i + 3 * j'))
       (at_index results (i + 3 * j' + 1)) →
     key_pair key' ≠ key_pair key) →
  lookup2 (_currentRewards acc') (key_pair key).1 (key_pair key).2
  = Some (at_index results (i + 3 * j))
  ∧ lookup2 (_claimable acc') (key_pair key).1 (key_pair key).2
    = Some (at_index results (i + 3 * j + 2)).
Proof.
  revert i acc j. induction keys as [|key0 rest IH]; intros i acc j;
    cbn [bribes_loop]; [done|].
  destruct (bribes_step cp key0 _ _ _ acc) as [acc1|] eqn:Hstep;
    cbn [obind]; [|discriminate].
  intros Hloop Hj Hpass Hlast. destruct j as [|j].
  - injection Hj as ->. replace (i + 3 * 0)%nat with i in * by lia.
    apply bribes_step_cases in Hstep as [(-> & _)|(_ & Hnot)]; [|done].
    destruct (bribes_loop_frame _ _ _ _ _ _ (key_pair key).1
                (key_pair key).2 Hloop) as [-> ->].
    { intros j' k' Hk' Hp'. rewrite <- surjective_pairing.
      apply (Hlast (S j') k'); [lia|done|].
      by replace (i + 3 * S j')%nat with (i + 3 + 3 * j')%nat by lia. }
    destruct (record_bribe_lookup key (at_index results i)
                (at_index results (i + 1)) (at_index results (i + 2))
                acc (key_pair key).1 (key_pair key).2) as [-> ->].
    by rewrite !decide_True by apply surjective_pairing.
  - simpl in Hj.
    replace (i + 3 * S j)%nat with (i + 3 + 3 * j)%nat in * by lia.
    apply (IH _ _ _ Hloop Hj Hpass).
    intros j' k' Hlt Hk' Hp'. apply (Hlast (S j') k'); [lia|done|].
    by replace (i + 3 * S j')%nat with (i + 3 + 3 * j')%nat by lia.
Qed.

Lemma bribes_loop_throws cp results keys i acc (j : nat) :
  (j < length keys)%nat →
  toNumber (at_index results (i + 3 * j + 1)) = Throw →
  bribes_loop cp results keys i acc = Throw.
Proof.
  revert i acc j. induction keys as [|key rest IH]; intros i acc j Hj Hbad;
    cbn [bribes_loop]; [simpl in Hj; lia|].
  destruct j as [|j].
  - replace (i + 3 * 0 + 1)%nat with (i + 1)%nat in Hbad by lia.
    unfold bribes_step. by rewrite Hbad.
  - destruct (bribes_step cp key _ _ _ acc) as [acc1|]; cbn [obind]; [|done].
    apply (IH _ _ j); [simpl in Hj; lia|].
    by replace (i + 3 + 3 * j + 1)%nat with (i + 3 * S j + 1)%nat by lia.
Qed.

Lemma assignBribes_throws st keys results (j : nat) :
  results ≠ [] → (j < length keys)%nat →
  toNumber (at_index results (3 * j + 1)) = Throw →
  assignBribes st keys results = Throw.
Proof.
  intros Hr Hj Hbad. unfold assignBribes.
  destruct results as [|v results]; [done|].
  destruct keys as [|key keys]; [simpl in Hj; lia|].
  cbn [length Nat.eqb orb].
  by rewrite (bribes_loop_throws _ _ _ 0 _ j Hj Hbad).
Qed.

(** X10. The values [assignBribes] publishes: for a key that passes the
    two tests, and after which no key of the same pair passes them, the
    pair's [currentRewards] entry is the reward read for that key and its
    [claimable] entry is the claimable value read for it, as it came
    (null included). Later passing keys overwrite earlier ones. *)
Theorem assignBribes_last_passing_key_wins st (keys : list string)
    (results : list jsval) st' (j : nat) key :
  assignBribes st keys results = Ok st' →
  keys !! j = Some key →
  passes (currentPeriod st) key (at_index results (3 * j))
    (at_index results (3 * j + 1)) →
  (∀ (j' : nat) key',
     (j < j')%nat → keys !! j' = Some key' →
     passes (currentPeriod st) key' (at_index results (3 * j'))
       (at_index results (3 * j' + 1)) →
     key_pair key' ≠ key_pair key) →
  lookup2 (currentRewards st') (key_pair key).1 (key_pair key).2
  = Some (at_index results (3 * j))
  ∧ lookup2 (claimable st') (key_pair key).1 (key_pair key).2
    = Some (at_index results (3 * j + 2)).
Proof.
  intros Hrun Hj Hpass Hlast.
  assert (keys ≠ []) as Hk by (intros ->; done).
  assert (results ≠ []) as Hr.
  { intros ->. destruct Hpass as (_ & rz & pz & Hrz & _). done. }
  destruct (assignBribes_publishes _ _ _ _ Hk Hr Hrun) as (t & Ht & ->).
  simpl. apply (bribes_loop_last _ _ _ 0 _ _ j key Ht Hj Hpass Hlast).
Qed.

(** X11. One unusable period entry spoils the whole aggregation: when the
    entry read as the period of any key is null, undefined or a number of
    more than 53 bits, [assignBribes] throws; nothing is set, so the
    state, its loading flag included, stays as it was. *)
Theorem assignBribes_throws_on_bad_period st (keys : list string)
    (results : list jsval) (j : nat) :
  results ≠ [] → (j < length keys)%nat →
  toNumber (at_index results (3 * j + 1)) = Throw →
  assignBribes st keys results = Throw
  ∧ settled st (assignBribes st keys results) = st.
Proof.
  intros Hr Hj Hbad. by rewrite (assignBribes_throws st keys results j).
Qed.

(** X12. A result list that is too short for the key list makes
    [assignBribes] throw: when it is non-empty but ends before the period
    entry of the last key, the call throws and sets nothing. *)
Theorem assignBribes_throws_on_short_results st (keys : list string)
    (results : list jsval) :
  results ≠ [] →
  (length results + 2 <= 3 * length keys)%nat →
  assignBribes st keys results = Throw
  ∧ settled st (assignBribes st keys results) = st.
Proof.
  intros Hr Hshort.
  assert (length results ≠ 0)%nat as Hlen by (by destruct results).
  rewrite (assignBribes_throws st keys results (length keys - 1));
    [done|done|lia|].
  unfold at_index. rewrite lookup_ge_None_2 by lia. done.
Qed.

Lemma assignBribes_again st keys results st' :
  assignBribes st keys results = Ok st' →
  assignBribes st' keys results = Ok st'.
Proof.
  unfold assignBribes. destruct (_ || _); [by intros [= <-]|].
  destruct (bribes_loop (currentPeriod st) _ _ _ _) as [t|] eqn:Ht;
    simpl; [|discriminate].
  intros [= <-]. simpl. by rewrite Ht.
Qed.

Lemma assignNextRewards_again st keys results st' :
  assignNextRewards st keys results = Ok st' →
  assignNextRewards st' keys results = Ok st'.
Proof.
  unfold assignNextRewards. destruct (_ || _); [by intros [= <-]|].
  destruct (next_rewards_loop _ _ _ _) as [t|]; simpl; [|discriminate].
  by intros [= <-].
Qed.

(** X13. Aggregation starts from empty tables each time: running either
    routine again on the same lists, from the state the first run left,
    changes nothing. *)
Theorem aggregation_idempotent st (keys : list string) (results : list jsval) :
  settled (settled st (assignBribes st keys results))
    (assignBribes (settled st (assignBribes st keys results)) keys results)
  = settled st (assignBribes st keys results)
  ∧ settled (settled st (assignNextRewards st keys results))
      (assignNextRewards (settled st (assignNextRewards st keys results))
         keys results)
    = settled st (assignNextRewards st keys results).
Proof.
  split.
  - destruct (assignBribes st keys results) as [st'|] eqn:Hrun; simpl.
    + by rewrite (assignBribes_again _ _ _ _ Hrun).
    + by rewrite Hrun.
  - destruct (assignNextRewards st keys results) as [st'|] eqn:Hrun; simpl.
    + by rewrite (assignNextRewards_again _ _ _ _ Hrun).
    + by rewrite Hrun.
Qed.

(** *** Entries and failures of assignNextRewards *)

Lemma next_rewards_loop_entries results keys i acc acc' :
  next_rewards_loop results keys i acc = Ok acc' →
  ∀ G T,
    has_entry acc' G T
    ↔ has_entry acc G T
      ∨ ∃ (j : nat) key,
          keys !! j = Some key ∧ truthy key = true ∧ key_pair key = (G, T).
Proof.
  revert i acc. induction keys as [|key rest IH]; intros i acc;
    cbn [next_rewards_loop].
  - intros [= <-] G T. split; [by left|].
    intros [?|(j & k & Hk & _)]; done.
  - destruct (next_step key _ _ acc) as [acc1|] eqn:Hstep;
      cbn [obind]; [|discriminate].
    intros Hloop G T. rewrite (IH _ _ Hloop G T).
    apply next_step_cases in Hstep
      as [(Ht & rz & cz & _ & _ & ->)|(Hf & ->)].
    + rewrite has_entry_assign_ensure, <- surjective_pairing. split.
      * intros [[Hp|Hacc]|(j & k & Hk & Htk & Hpk)].
        -- right. by exists 0%nat, key.
        -- by left.
        -- right. by exists (S j), k.
      * intros [Hacc|(j & k & Hk & Htk & Hpk)].
        -- left. by right.
        -- destruct j as [|j].
           ++ injection Hk as ->. left. by left.
           ++ right. by exists j, k.
    + split.
      * intros [Hacc|(j & k & Hk & Htk & Hpk)]; [by left|].
        right. by exists (S j), k.
      * intros [Hacc|(j & k & Hk & Htk & Hpk)]; [by left|].
        destruct j as [|j]; [injection Hk as ->; congruence|].
        right. by exists j, k.
Qed.

Lemma next_rewards_loop_throws results keys i acc (j : nat) key :
  keys !! j = Some key → truthy key = true →
  sub (at_index results (i + 2 * j)) (at_index results (i + 2 * j + 1))
  = Throw →
  next_rewards_loop results keys i acc = Throw.
Proof.
  revert i acc j. induction keys as [|key0 rest IH]; intros i acc j Hj Ht Hbad;
    cbn [next_rewards_loop]; [done|].
  destruct j as [|j].
  - injection Hj as ->. replace (i + 2 * 0)%nat with i in Hbad by lia.
    unfold next_step. rewrite Ht.
    destruct (key_pair key) as [G T]. by rewrite Hbad.
  - destruct (next_step key0 _ _ acc) as [acc1|]; cbn [obind]; [|done].
    apply (IH _ _ j Hj Ht).
    by replace (i + 2 + 2 * j)%nat with (i + 2 * S j)%nat by lia.
Qed.

(** X14. The next-period view is not filtered: when [assignNextRewards]
    publishes, [nextRewards] has an entry for a pair exactly when the key
    list holds a non-empty key filed under that pair, whatever the two
    amounts are (a zero or negative difference is an entry too). *)
Theorem assignNextRewards_entry_iff st (keys : list string)
    (results : list jsval) st' :
  keys ≠ [] → results ≠ [] →
  assignNextRewards st keys results = Ok st' →
  ∀ G T,
    has_entry (nextRewards st') G T
    ↔ ∃ (j : nat) key,
        keys !! j = Some key ∧ key ≠ EmptyString ∧ key_pair key = (G, T).
Proof.
  intros Hk Hr. unfold assignNextRewards.
  destruct results as [|v results]; [done|].
  destruct keys as [|key0 keys]; [done|].
  cbn [length Nat.eqb orb].
  destruct (next_rewards_loop _ _ _ _) as [table|] eqn:Ht;
    cbn [obind]; [|discriminate].
  intros [= <-] G T. simpl.
  rewrite (next_rewards_loop_entries _ _ _ _ _ Ht G T). split.
  - intros [[x Hx]|(j & k & Hjk & Htk & Hpk)].
    { rewrite lookup2_empty in Hx. done. }
    exists j, k. by rewrite <- truthy_nonempty.
  - intros (j & k & Hjk & Htk & Hpk). right. exists j, k.
    by rewrite truthy_nonempty.
Qed.

(** X15. One missing value spoils the projection: when either of the two
    entries read for a non-empty key is not a BigNumber (the null of a
    failed call, or undefined past the end of a short list),
    [assignNextRewards] throws and [nextRewards] keeps its prior
    value. *)
Theorem assignNextRewards_throws_on_missing_value st (keys : list string)
    (results : list jsval) (j : nat) key :
  results ≠ [] →
  keys !! j = Some key → key ≠ EmptyString →
  ¬ is_BigNumber (at_index results (2 * j))
  ∨ ¬ is_BigNumber (at_index results (2 * j + 1)) →
  assignNextRewards st keys results = Throw
  ∧ settled st (assignNextRewards st keys results) = st.
Proof.
  intros Hr Hj Hne Hbad.
  assert (assignNextRewards st keys results = Throw) as ->; [|done].
  unfold assignNextRewards.
  destruct results as [|v results]; [done|].
  destruct keys as [|key0 keys]; [done|].
  cbn [length Nat.eqb orb].
  rewrite (next_rewards_loop_throws _ _ 0 _ j key Hj); [done| |].
  { by apply truthy_nonempty. }
  rewrite !Nat.add_0_l. unfold sub.
  destruct (at_index (v :: results) (2 * j)) as [| |a] eqn:Ea;
    destruct (at_index (v :: results) (2 * j + 1)) as [| |b] eqn:Eb;
    try done.
  destruct Hbad as [H|H]; exfalso; apply H; by eexists.
Qed.

(** *** A whole refresh cycle *)

Lemma idle_discovery chain web3 contract gs :
  idle web3 (discovery_of chain contract gs) = idle web3 gs.
Proof. unfold idle, discovery_of. by rewrite length_map. Qed.

Lemma user_batch_lookup chain contract pairs (j : nat) g t :
  pairs !! j = Some (g, t) →
  at_index (map (eth_call chain) (user_batch contract pairs)) (3 * j)
  = eth_call chain (Bribe.reward_per_token contract g t)
  ∧ at_index (map (eth_call chain) (user_batch contract pairs)) (3 * j + 1)
    = eth_call chain (Bribe.active_period contract g t)
  ∧ at_index (map (eth_call chain) (user_batch contract pairs)) (3 * j + 2)
    = eth_call chain (Bribe.claimable contract PLACEHOLDER g t).
Proof.
  intros Hj. unfold at_index, user_batch.
  destruct (flat_map_blocks 3
              (fun gt => user_calls contract PLACEHOLDER gt.1 gt.2) pairs)
    as [_ Hblock]; [done|].
  rewrite !list_lookup_fmap.
  replace (3 * j)%nat with (3 * j + 0)%nat at 1 by lia.
  rewrite !(Hblock _ _ _ Hj) by lia. done.
Qed.

Lemma next_batch_lookup chain contract pairs (j : nat) g t :
  pairs !! j = Some (g, t) →
  at_index (map (eth_call chain) (next_batch contract pairs)) (2 * j)
  = eth_call chain (Bribe.reward_per_gauge contract g t)
  ∧ at_index (map (eth_call chain) (next_batch contract pairs)) (2 * j + 1)
    = eth_call chain (Bribe.claims_per_gauge contract g t).
Proof.
  intros Hj. unfold at_index, next_batch.
  destruct (flat_map_blocks 2
              (fun gt => next_calls contract gt.1 gt.2) pairs)
    as [_ Hblock]; [done|].
  rewrite !list_lookup_fmap.
  replace (2 * j)%nat with (2 * j + 0)%nat at 1 by lia.
  rewrite !(Hblock _ _ _ Hj) by lia. done.
Qed.

(** The cycle on a chain that answers, written out. *)
Lemma getBribes_run chain web3 st w :
  idle web3 (gauges w) = false → responsive chain web3 →
  let gs := gauges w in
  let rpg2 := discovery_of chain curveBribeV2Contract gs in
  let rpg3 := discovery_of chain curveBribeV3Contract gs in
  let pairs2 := discovered_pairs gs rpg2 in
  let pairs3 := discovered_pairs gs rpg3 in
  let st1 :=
    settled st
      (assignBribes st (map pair_key (pairs2 ++ pairs3))
         (map (eth_call chain)
            (user_batch curveBribeV2Contract (pairs2 ++ pairs3)))) in
  getBribes chain web3 st w
  = (Ok (settled st1
           (assignNextRewards st1 (map pair_key pairs3)
              (map (eth_call chain)
                 (next_batch curveBribeV3Contract pairs3)))),
     {| gauges :=
          (user_loop curveBribeV2Contract PLACEHOLDER
             (user_loop curveBribeV2Contract PLACEHOLDER gs rpg2).1.1
             rpg3).1.1;
        issued :=
          issued w
          ++ [discovery_batch curveBribeV2Contract gs;
              discovery_batch curveBribeV3Contract gs;
              user_batch curveBribeV2Contract pairs2;
              user_batch curveBribeV2Contract pairs3;
              next_batch curveBribeV3Contract pairs3] |}).
Proof.
  intros Hidle Hresp gs rpg2 rpg3 pairs2 pairs3 st1.
  unfold getBribes, bind, all2.
  rewrite (getRewardsPerGauges_run _ _ _ _ Hidle Hresp).
  rewrite (getRewardsPerGauges_run chain web3 curveBribeV3Contract
             {| gauges := gauges w; issued := _ |} Hidle Hresp).
  cbn [gauges issued]. fold gs rpg2 rpg3.
  assert (idle web3 rpg2 = false) as Hidle2
    by (unfold rpg2; by rewrite idle_discovery).
  assert (idle web3 rpg3 = false) as Hidle3
    by (unfold rpg3; by rewrite idle_discovery).
  unfold all3.
  rewrite (getRewardsPerUser_run _ _ _ _ _ Hidle2 Hresp). cbn [gauges issued].
  rewrite (getRewardsPerUser_run _ _ _ _ _ Hidle3 Hresp). cbn [gauges issued].
  rewrite (getNextPeriodRewards_run _ _ _ _ _ Hidle3 Hresp).
  cbn [gauges issued].
  destruct (user_loop_descriptors curveBribeV2Contract PLACEHOLDER gs rpg2)
    as [_ Hm1].
  set (gs1 := (user_loop curveBribeV2Contract PLACEHOLDER gs rpg2).1.1) in *.
  destruct (user_loop_descriptors curveBribeV2Contract PLACEHOLDER gs1 rpg3)
    as [_ Hm2].
  set (gs2 := (user_loop curveBribeV2Contract PLACEHOLDER gs1 rpg3).1.1) in *.
  rewrite (discovered_pairs_addresses gs1 gs rpg3 Hm1).
  rewrite (discovered_pairs_addresses gs2 gs rpg3) by congruence.
  fold pairs2 pairs3. unfold ret. f_equal.
  - f_equal. unfold st1, user_batch, next_batch.
    by rewrite !map_app, !flat_map_app, !map_app.
  - f_equal. unfold discovery_batch, user_batch, next_batch.
    by rewrite <- !app_assoc.
Qed.

Lemma idle_false_intro {A} web3 (l : list A) :
  isActive web3 = true → is_Some (provider web3) → l ≠ [] →
  idle web3 l = false.
Proof.
  intros Ha [p Hp] Hl. unfold idle. rewrite Ha, Hp. by destruct l.
Qed.

Lemma allowanceKey_truthy g t : truthy (allowanceKey g t) = true.
Proof. by destruct g. Qed.

Lemma discovered_pairs_nil rpg : discovered_pairs [] rpg = [].
Proof. done. Qed.

(** X16. What one refresh sends on a chain that answers, with an active
    wallet and at least one gauge: five batches, in this order: discovery
    on V2, discovery on V3, the per-user batch for the pairs discovered on
    V2, the per-user batch for the pairs discovered on V3 (sent, like the
    former, to the V2 registry), and the projection batch for the pairs
    discovered on V3, sent to the V3 registry. *)
Theorem getBribes_five_batches chain web3 st w :
  isActive web3 = true → is_Some (provider web3) → gauges w ≠ [] →
  responsive chain web3 →
  issued (snd (getBribes chain web3 st w))
  = issued w
    ++ [discovery_batch curveBribeV2Contract (gauges w);
        discovery_batch curveBribeV3Contract (gauges w);
        user_batch curveBribeV2Contract
          (discovered_pairs (gauges w)
             (discovery_of chain curveBribeV2Contract (gauges w)));
        user_batch curveBribeV2Contract
          (discovered_pairs (gauges w)
             (discovery_of chain curveBribeV3Contract (gauges w)));
        next_batch curveBribeV3Contract
          (discovered_pairs (gauges w)
             (discovery_of chain curveBribeV3Contract (gauges w)))].
Proof.
  intros Ha Hp Hg Hresp.
  rewrite getBribes_run by (by try apply idle_false_intro). done.
Qed.

(** X17. What one refresh does to the gauge descriptors on a chain that
    answers: each gauge gets the tokens discovered for it on V2 appended,
    then those discovered for it on V3; a gauge with no token on either
    registry is left as it was. *)
Theorem getBribes_appends_both_discoveries chain web3 st w (i : nat) g :
  isActive web3 = true → is_Some (provider web3) →
  responsive chain web3 →
  gauges w !! i = Some g →
  let tokens2 :=
    discovered (Some (eth_call_addresses chain
                        (Bribe.rewards_per_gauge curveBribeV2Contract
                           (gauge g)))) in
  let tokens3 :=
    discovered (Some (eth_call_addresses chain
                        (Bribe.rewards_per_gauge curveBribeV3Contract
                           (gauge g)))) in
  gauges (snd (getBribes chain web3 st w)) !! i
  = Some (append_rewards (append_rewards g tokens2) tokens3).
Proof.
  intros Ha Hp Hresp Hi tokens2 tokens3.
  assert (gauges w ≠ []) as Hg by (intros E; by rewrite E in Hi).
  rewrite getBribes_run by (by try apply idle_false_intro).
  cbn [snd gauges].
  assert (∀ c, discovery_of chain c (gauges w) !! i
               = Some (eth_call_addresses chain
                         (Bribe.rewards_per_gauge c (gauge g)))) as Hd.
  { intros c. unfold discovery_of. by rewrite list_lookup_fmap, Hi. }
  pose proof (user_loop_gauges curveBribeV2Contract PLACEHOLDER _
                (discovery_of chain curveBribeV2Contract (gauges w))
                _ _ Hi) as H1.
  rewrite Hd in H1. fold tokens2 in H1.
  rewrite (user_loop_gauges _ _ _ _ _ _ H1), Hd. fold tokens3.
  unfold append_rewards. f_equal.
  destruct tokens2; by destruct tokens3.
Qed.

(** X18. When the flag is cleared: on a chain that answers, with an active
    wallet, as soon as discovery finds a token for some gauge on either
    registry and the V2 registry answers [reward_per_token] and
    [active_period] with numbers (the period within 53 bits), the refresh
    ends with [isLoading] false. *)
Theorem refresh_clears_isLoading chain web3 st w :
  isActive web3 = true → is_Some (provider web3) →
  responsive chain web3 →
  discovered_pairs (gauges w)
    (discovery_of chain curveBribeV2Contract (gauges w))
  ++ discovered_pairs (gauges w)
       (discovery_of chain curveBribeV3Contract (gauges w)) ≠ [] →
  (∀ g t, ∃ r p,
     eth_call chain (Bribe.reward_per_token curveBribeV2Contract g t) = JBig r
     ∧ eth_call chain (Bribe.active_period curveBribeV2Contract g t) = JBig p
     ∧ Z.abs p < MAX_SAFE) →
  isLoading (fst (refresh chain web3 st w)) = false.
Proof.
  intros Ha Hp Hresp Hpairs Hwf.
  assert (gauges w ≠ []) as Hg.
  { intros E. apply Hpairs. by rewrite E. }
  unfold refresh.
  rewrite getBribes_run by (by try apply idle_false_intro).
  cbn [fst settled].
  set (pairs := discovered_pairs (gauges w) _ ++ discovered_pairs (gauges w) _)
    in *.
  destruct (settled_assignNextRewards_frame
              (settled st
                 (assignBribes st (map pair_key pairs)
                    (map (eth_call chain)
                       (user_batch curveBribeV2Contract pairs))))
              (map pair_key
                 (discovered_pairs (gauges w)
                    (discovery_of chain curveBribeV3Contract (gauges w))))
              (map (eth_call chain)
                 (next_batch curveBribeV3Contract
                    (discovered_pairs (gauges w)
                       (discovery_of chain curveBribeV3Contract
                          (gauges w))))))
    as (_ & _ & -> & _).
  destruct (bribes_loop_total (currentPeriod st)
              (map (eth_call chain) (user_batch curveBribeV2Contract pairs))
              (map pair_key pairs) 0 no_tables) as [tab Ht].
  { intros j Hj. rewrite length_map in Hj.
    destruct (lookup_lt_is_Some_2 pairs j Hj) as [[g t] Hgt].
    destruct (user_batch_lookup chain curveBribeV2Contract pairs j g t Hgt)
      as (Hr & Hpe & _).
    destruct (Hwf g t) as (r & p & Er & Ep & Hsafe).
    exists r, p. rewrite !Nat.add_0_l, Hr, Hpe. done. }
  unfold assignBribes. rewrite Ht.
  destruct pairs as [|[g t] pairs]; [done|]. done.
Qed.

(** X19. The two aggregations of a refresh stand or fall separately: on a
    chain that answers, when the [active_period] answer for one discovered
    pair is unusable (the call failed, or the value has more than 53 bits),
    [assignBribes] throws and [currentRewards], [claimable] and the loading
    flag keep their prior values, while [nextRewards] is published all the
    same, with an entry for every pair discovered on V3, provided the V3
    registry answers the projection calls with numbers. *)
Theorem refresh_publishes_nextRewards_alone chain web3 st w g0 t0 :
  isActive web3 = true → is_Some (provider web3) →
  responsive chain web3 →
  In (g0, t0)
     (discovered_pairs (gauges w)
        (discovery_of chain curveBribeV2Contract (gauges w))
      ++ discovered_pairs (gauges w)
           (discovery_of chain curveBribeV3Contract (gauges w))) →
  toNumber (eth_call chain (Bribe.active_period curveBribeV2Contract g0 t0))
  = Throw →
  (∀ g t,
     is_BigNumber
       (eth_call chain (Bribe.reward_per_gauge curveBribeV3Contract g t))
     ∧ is_BigNumber
         (eth_call chain (Bribe.claims_per_gauge curveBribeV3Contract g t))) →
  let st' := fst (refresh chain web3 st w) in
  currentRewards st' = currentRewards st
  ∧ claimable st' = claimable st
  ∧ isLoading st' = isLoading st
  ∧ ∀ g t,
      In (g, t)
         (discovered_pairs (gauges w)
            (discovery_of chain curveBribeV3Contract (gauges w))) →
      has_entry (nextRewards st')
        (key_pair (allowanceKey g t)).1 (key_pair (allowanceKey g t)).2.
Proof.
  intros Ha Hp Hresp Hin Hbad Hwf st'. unfold st', refresh.
  assert (gauges w ≠ []) as Hg.
  { intros E. rewrite E in Hin. done. }
  rewrite getBribes_run by (by try apply idle_false_intro).
  cbn [fst settled].
  set (pairs3 := discovered_pairs (gauges w)
                   (discovery_of chain curveBribeV3Contract (gauges w))) in *.
  set (pairs := discovered_pairs (gauges w) _ ++ pairs3) in *.
  apply list_elem_of_In, list_elem_of_lookup in Hin as [j Hj].
  destruct (user_batch_lookup chain curveBribeV2Contract pairs j g0 t0 Hj)
    as (_ & Hpe & _).
  rewrite (assignBribes_throws st (map pair_key pairs)
             (map (eth_call chain) (user_batch curveBribeV2Contract pairs))
             j).
  2:{ intros E. apply (f_equal length) in E.
      rewrite length_map in E. unfold user_batch in E.
      destruct (flat_map_blocks 3
                  (fun gt => user_calls curveBribeV2Contract PLACEHOLDER
                               gt.1 gt.2) pairs) as [Hlen _]; [done|].
      rewrite Hlen in E. apply lookup_lt_Some in Hj. simpl in E. lia. }
  2:{ rewrite length_map. by apply lookup_lt_Some in Hj. }
  2:{ by rewrite Hpe. }
  cbn [settled].
  destruct (settled_assignNextRewards_frame st (map pair_key pairs3)
              (map (eth_call chain) (next_batch curveBribeV3Contract pairs3)))
    as (-> & -> & -> & _).
  split_and!; try done.
  intros g t Hgt.
  destruct (next_rewards_loop_total
              (map (eth_call chain) (next_batch curveBribeV3Contract pairs3))
              (map pair_key pairs3) 0 ∅) as [table Htable].
  { intros i Hi. rewrite length_map in Hi.
    destruct (lookup_lt_is_Some_2 pairs3 i Hi) as [[g' t'] Hgt'].
    destruct (next_batch_lookup chain curveBribeV3Contract pairs3 i g' t'
                Hgt') as [Hr Hc].
    rewrite !Nat.add_0_l, Hr, Hc. apply Hwf. }
  apply list_elem_of_In, list_elem_of_lookup in Hgt as [i Hi].
  unfold assignNextRewards. rewrite Htable.
  destruct pairs3 as [|gt0 pairs3]; [done|].
  cbn [map flat_map next_batch next_calls app length Nat.eqb orb obind settled
       set_nextRewards nextRewards].
  apply (next_rewards_loop_entries _ _ _ _ _ Htable). right.
  exists i, (allowanceKey g t). split.
  - rewrite list_lookup_fmap, Hi. done.
  - split; [apply allowanceKey_truthy|apply surjective_pairing].
Qed.

(** X20. A refresh with an inactive wallet, without provider or without
    gauge does nothing at all: no batch is sent, no gauge descriptor is
    touched and the state is returned as it was, whatever the chain would
    have answered. *)
Theorem getBribes_idle_does_nothing chain web3 st w :
  isActive web3 = false ∨ provider web3 = None ∨ gauges w = [] →
  getBribes chain web3 st w = (Ok st, w).
Proof.
  intros H. apply getBribes_when_idle. destruct H as [H|[H|H]].
  - by apply idle_inactive.
  - by apply idle_no_provider.
  - rewrite H. apply idle_nil.
Qed.







(** *** What a refresh wipes, and what a failed one leaves *)

Lemma bribes_loop_no_pass cp results keys i acc acc' :
  bribes_loop cp results keys i acc = Ok acc' →
  (∀ (j : nat) key,
     keys !! j = Some key →
     ¬ passes cp key (at_index results (i + 3 * j))
         (at_index results (i + 3 * j + 1))) →
  acc' = acc.
Proof.
  revert i acc. induction keys as [|key rest IH]; intros i acc;
    cbn [bribes_loop].
  - by intros [= <-].
  - destruct (bribes_step cp key _ _ _ acc) as [acc1|] eqn:Hstep;
      cbn [obind]; [|discriminate].
    intros Hloop Hnone.
    rewrite (IH _ _ Hloop).
    2:{ intros j k Hk.
        replace (i + 3 + 3 * j)%nat with (i + 3 * S j)%nat by lia.
        by apply (Hnone (S j) k). }
    apply bribes_step_cases in Hstep as [(_ & Hpass)|(-> & _)]; [|done].
    exfalso. apply (Hnone 0%nat key eq_refl).
    by replace (i + 3 * 0)%nat with i by lia.
Qed.

(** X22. [assignBribes] replaces, it does not merge: a run that gets past
    its guard and completes while no key passes the two tests publishes an
    empty [currentRewards] and an empty [claimable], whatever the state
    held before, and clears the flag. This is what happens to every
    completed run while the current period is NaN. *)
Theorem assignBribes_wipes_when_nothing_passes st (keys : list string)
    (results : list jsval) st' :
  keys ≠ [] → results ≠ [] →
  assignBribes st keys results = Ok st' →
  ((∀ (j : nat) key,
      keys !! j = Some key →
      ¬ passes (currentPeriod st) key (at_index results (3 * j))
          (at_index results (3 * j + 1)))
   ∨ currentPeriod st = NaN) →
  currentRewards st' = ∅ ∧ claimable st' = ∅ ∧ isLoading st' = false.
Proof.
  intros Hk Hr Hrun Hnone.
  destruct (assignBribes_publishes _ _ _ _ Hk Hr Hrun) as (t & Ht & ->).
  rewrite (bribes_loop_no_pass _ _ _ _ _ _ Ht); [done|].
  intros j key Hj Hpass. destruct Hnone as [Hnone|Hnan].
  - by apply (Hnone j key).
  - destruct Hpass as (_ & rz & pz & _ & _ & _ & Hge).
    rewrite Hnan in Hge. done.
Qed.

(** X23. When the multicall provider cannot be set up, a refresh with an
    active wallet and gauges rejects before anything is sent: no batch is
    issued, no gauge descriptor is touched, and the state keeps its
    mappings and its flag. *)
Theorem refresh_without_multicall_provider chain web3 st w :
  isActive web3 = true → is_Some (provider web3) → gauges w ≠ [] →
  newEthCallProvider chain (default (getProvider 1) (provider web3)) = false →
  getBribes chain web3 st w = (Throw, w)
  ∧ refresh chain web3 st w = (st, w).
Proof.
  intros Ha Hp Hg Hconn.
  assert (getBribes chain web3 st w = (Throw, w)) as E.
  { assert (∀ c, getRewardsPerGauges chain web3 c w = (Throw, w)) as Hd.
    { intros c. unfold getRewardsPerGauges, bind, useCurve_gauges,
        providers_newEthCallProvider.
      by rewrite (idle_false_intro web3 (gauges w) Ha Hp Hg), Hconn. }
    unfold getBribes, bind, all2. by rewrite !Hd. }
  split; [done|]. unfold refresh. by rewrite E.
Qed.

(** X24. A refresh that fails after discovery still leaves its mark on
    the gauge descriptors: when both discovery batches come back but the
    first per-user batch does not, the refresh rejects and the state is
    the one before, yet every gauge has had the tokens discovered for it
    on V2, then those discovered on V3, appended to its list. *)
Theorem failed_refresh_still_extends_gauges chain web3 st w (i : nat) g :
  isActive web3 = true → is_Some (provider web3) →
  newEthCallProvider chain (default (getProvider 1) (provider web3)) = true →
  transport chain (discovery_batch curveBribeV2Contract (gauges w)) = true →
  transport chain (discovery_batch curveBribeV3Contract (gauges w)) = true →
  transport chain
    (user_batch curveBribeV2Contract
       (discovered_pairs (gauges w)
          (discovery_of chain curveBribeV2Contract (gauges w)))) = false →
  gauges w !! i = Some g →
  let tokens2 :=
    discovered (Some (eth_call_addresses chain
                        (Bribe.rewards_per_gauge curveBribeV2Contract
                           (gauge g)))) in
  let tokens3 :=
    discovered (Some (eth_call_addresses chain
                        (Bribe.rewards_per_gauge curveBribeV3Contract
                           (gauge g)))) in
  fst (refresh chain web3 st w) = st
  ∧ gauges (snd (refresh chain web3 st w)) !! i
    = Some (append_rewards (append_rewards g tokens2) tokens3).
Proof.
  intros Ha Hp Hconn Ht2 Ht3 Hfail Hi tokens2 tokens3.
  assert (gauges w ≠ []) as Hg by (intros E; by rewrite E in Hi).
  pose proof (idle_false_intro web3 (gauges w) Ha Hp Hg) as Hidle.
  assert (∀ c w0,
    gauges w0 = gauges w →
    transport chain (discovery_batch c (gauges w)) = true →
    ∃ w1, getRewardsPerGauges chain web3 c w0
          = (Ok (discovery_of chain c (gauges w)), w1)
          ∧ gauges w1 = gauges w) as Hdisc.
  { intros c w0 Hw0 Ht.
    unfold getRewardsPerGauges, bind, useCurve_gauges,
      providers_newEthCallProvider, tryAll_addresses.
    rewrite Hw0, Hidle, Hconn. unfold discovery_batch in Ht. rewrite Ht.
    eexists. unfold ret, discovery_of. rewrite map_map.
    split; [reflexivity|exact Hw0]. }
  destruct (Hdisc curveBribeV2Contract w eq_refl Ht2) as (w1 & E1 & Hg1).
  destruct (Hdisc curveBribeV3Contract w1 Hg1 Ht3) as (w2 & E2 & Hg2).
  set (rpg2 := discovery_of chain curveBribeV2Contract (gauges w)) in *.
  set (rpg3 := discovery_of chain curveBribeV3Contract (gauges w)) in *.
  assert (idle web3 rpg2 = false) as Hidle2
    by (unfold rpg2; by rewrite idle_discovery).
  assert (idle web3 rpg3 = false) as Hidle3
    by (unfold rpg3; by rewrite idle_discovery).
  unfold refresh, getBribes, bind, all2. rewrite E1, E2. unfold all3.
  pose proof (getRewardsPerUser_gauges chain web3 curveBribeV2Contract
                rpg2 w2 Hidle2 Hconn) as Hu2.
  assert ((getRewardsPerUser chain web3 curveBribeV2Contract rpg2 w2).1
          = Throw) as Hthrow.
  { unfold getRewardsPerUser, bind, providers_newEthCallProvider, on_gauges.
    rewrite Hidle2, Hconn, Hg2.
    change (or_else PLACEHOLDER (address web3)) with PLACEHOLDER.
    destruct (user_loop_keys_calls curveBribeV2Contract PLACEHOLDER
                (gauges w) rpg2) as [_ Hc].
    destruct (user_loop curveBribeV2Contract PLACEHOLDER (gauges w) rpg2)
      as [[gs keys] calls].
    simpl in Hc. subst calls. unfold tryAll. cbn [gauges issued].
    unfold user_batch in Hfail. by rewrite Hfail. }
  destruct (getRewardsPerUser chain web3 curveBribeV2Contract rpg2 w2)
    as [u2 w3].
  simpl in Hthrow, Hu2. subst u2.
  pose proof (getRewardsPerUser_gauges chain web3 curveBribeV2Contract
                rpg3 w3 Hidle3 Hconn) as Hu3.
  destruct (getRewardsPerUser chain web3 curveBribeV2Contract rpg3 w3)
    as [u3 w4].
  destruct (getNextPeriodRewards_cases chain web3 curveBribeV3Contract
              rpg3 w4) as [Hn _].
  destruct (getNextPeriodRewards chain web3 curveBribeV3Contract rpg3 w4)
    as [n3 w5].
  simpl in Hu3, Hn. cbn [fst snd settled]. split; [done|].
  rewrite Hn, Hu3, Hu2, Hg2.
  assert (∀ c, discovery_of chain c (gauges w) !! i
               = Some (eth_call_addresses chain
                         (Bribe.rewards_per_gauge c (gauge g)))) as Hd.
  { intros c. unfold discovery_of. by rewrite list_lookup_fmap, Hi. }
  pose proof (user_loop_gauges curveBribeV2Contract
                (or_else PLACEHOLDER (address web3)) _ rpg2 _ _ Hi) as H1.
  unfold rpg2 in H1. rewrite Hd in H1. fold tokens2 rpg2 in H1.
  rewrite (user_loop_gauges _ _ _ _ _ _ H1). unfold rpg3. rewrite Hd.
  fold tokens3. unfold append_rewards. f_equal.
  destruct tokens2; by destruct tokens3.
Qed.

End BribesContextApp.

(** ** The statements on the sample data *)

(** C1. One gauge, a token discovered on the V3 registry only: the
    per-user batch built from the V3 token list (the fourth batch of the
    cycle) is addressed to the V2 registry, and no per-user call reaches
    the V3 registry. *)
Theorem getBribes_fetches_V3_lists_on_V2 :
  issued (snd (getBribes Sample.toAddress Sample.V2_ADDRESS Sample.V3_ADDRESS
                 Sample.chain Sample.wallet Sample.state Sample.world))
  = [ [Bribe.rewards_per_gauge Sample.V2 Sample.G1];
      [Bribe.rewards_per_gauge Sample.V3 Sample.G1];
      [];
      [Bribe.reward_per_token Sample.V2 Sample.G1 Sample.T1;
       Bribe.active_period Sample.V2 Sample.G1 Sample.T1;
       Bribe.claimable Sample.V2 PLACEHOLDER Sample.G1 Sample.T1];
      [Bribe.reward_per_gauge Sample.V3 Sample.G1 Sample.T1;
       Bribe.claims_per_gauge Sample.V3 Sample.G1 Sample.T1] ].
Proof. vm_compute. reflexivity. Qed.

Lemma allowanceKey_split_roundtrip_witness :
  is_address Sample.G1 = true ∧ is_address Sample.T1 = true
  ∧ split underscore (allowanceKey Sample.G1 Sample.T1)
    = [Sample.G1; Sample.T1]
  ∧ destructure_key (allowanceKey Sample.G1 Sample.T1)
    = (Sample.G1, Some Sample.T1).
Proof.
  split; [reflexivity|]. split; [reflexivity|].
  apply (allowanceKey_split_roundtrip Sample.G1 Sample.T1); reflexivity.
Defined.

Lemma getRewardsPerGauges_empty_when_idle_witness :
  isActive Sample.disconnected = false
  ∧ getRewardsPerGauges Sample.offline Sample.disconnected Sample.V3
      Sample.world
    = (Ok [], Sample.world).
Proof.
  split; [reflexivity|].
  apply (getRewardsPerGauges_empty_when_idle Sample.offline
           Sample.disconnected Sample.V3 Sample.world).
  left. reflexivity.
Defined.

Lemma assign_empty_is_noop_witness :
  assignBribes Sample.toAddress Sample.state [Sample.key] [] = Ok Sample.state
  ∧ assignNextRewards Sample.toAddress Sample.state [Sample.key] []
    = Ok Sample.state
  ∧ settled Sample.state
      (assignBribes Sample.toAddress Sample.state [Sample.key] [])
    = Sample.state
  ∧ settled Sample.state
      (assignNextRewards Sample.toAddress Sample.state [Sample.key] [])
    = Sample.state.
Proof.
  apply (proj1 (assign_empty_is_noop Sample.toAddress Sample.state
                  [Sample.key] [])).
  right. reflexivity.
Defined.

Lemma getRewardsPerUser_ignores_account_witness :
  getRewardsPerUser Sample.chain Sample.wallet Sample.V2 Sample.discovery
    Sample.world
  = getRewardsPerUser Sample.chain Sample.other_wallet Sample.V2
      Sample.discovery Sample.world.
Proof.
  exact (proj1 (getRewardsPerUser_ignores_account Sample.chain Sample.wallet
                  Sample.V2 Sample.discovery Sample.world
                  (address Sample.wallet) (address Sample.other_wallet))).
Defined.

Lemma getRewardsPerUser_appends_tokens_witness :
  gauges (snd (getRewardsPerUser Sample.chain Sample.wallet Sample.V2
                 Sample.discovery
                 (snd (getRewardsPerUser Sample.chain Sample.wallet Sample.V2
                         Sample.discovery Sample.world)))) !! 0%nat
  = Some {| gauge := Sample.G1;
            rewardPerGauge := Some [Sample.T1; Sample.T1] |}.
Proof.
  refine (proj2 (getRewardsPerUser_appends_tokens Sample.chain Sample.wallet
                   Sample.V3 Sample.V2 Sample.world
                   (snd (getRewardsPerGauges Sample.chain Sample.wallet
                           Sample.V3 Sample.world))
                   Sample.discovery Sample.world 0
                   {| gauge := Sample.G1; rewardPerGauge := None |}
                   [Sample.T1] _ _ _ _)).
  - reflexivity.
  - reflexivity.
  - reflexivity.
  - discriminate.
Defined.

Lemma assignBribes_entry_iff_witness :
  ∃ st',
    assignBribes Sample.toAddress Sample.state [Sample.key]
      [JBig 100; JBig 1000; JBig 5] = Ok st'
    ∧ has_entry (currentRewards st') Sample.G1 Sample.T1.
Proof.
  destruct (assignBribes_entry_iff Sample.toAddress Sample.state
              [Sample.key] [JBig 100; JBig 1000; JBig 5])
    as (st' & Hrun & Hiff).
  - discriminate.
  - reflexivity.
  - repeat constructor; eexists; (split; [reflexivity|]);
      (split; [discriminate|reflexivity]).
  - intros j p H. destruct j as [|j].
    + injection H as <-. reflexivity.
    + rewrite lookup_ge_None_2 in H; [discriminate|simpl; lia].
  - exists st'. split; [exact Hrun|]. apply Hiff.
    exists 0%nat, Sample.key, 100, 1000, 1000.
    repeat split; try reflexivity; discriminate.
Defined.

Lemma assignNextRewards_stores_difference_witness :
  ∃ st',
    assignNextRewards Sample.toAddress Sample.state [Sample.key]
      [JBig 10; JBig 30] = Ok st'
    ∧ lookup2 (nextRewards st') Sample.G1 Sample.T1 = Some (JBig (-20)).
Proof.
  destruct (assignNextRewards_stores_difference Sample.toAddress Sample.state
              [Sample.key] [JBig 10; JBig 30])
    as (st' & Hrun & _ & Hlast).
  - discriminate.
  - reflexivity.
  - repeat constructor; eexists; reflexivity.
  - exists st'. split; [exact Hrun|].
    apply (Hlast 0%nat Sample.key 10 30); try reflexivity.
    + discriminate.
    + intros j' key' Hlt H. destruct j' as [|j']; [lia|discriminate].
Defined.

Lemma assignBribes_claimable_follows_currentRewards_witness :
  same_entries
    (currentRewards
       (settled (initialState 0 0)
          (assignBribes Sample.toAddress (initialState 0 0) [Sample.key]
             [JBig 0; JBig 1000; JBig 5])))
    (claimable
       (settled (initialState 0 0)
          (assignBribes Sample.toAddress (initialState 0 0) [Sample.key]
             [JBig 0; JBig 1000; JBig 5]))).
Proof.
  apply (proj1 (assignBribes_claimable_follows_currentRewards
                  Sample.toAddress (initialState 0 0) [Sample.key]
                  [JBig 0; JBig 1000; JBig 5])).
  intros G T. reflexivity.
Defined.

Lemma isLoading_cleared_only_by_assignBribes_witness :
  (∃ (keys : list string) (results : list jsval)
     (nkeys : list string) (nresults : list jsval) st1,
     fetched Sample.V2_ADDRESS Sample.V3_ADDRESS Sample.chain Sample.wallet
       Sample.world keys results nkeys nresults
     ∧ keys ≠ [] ∧ results ≠ []
     ∧ assignBribes Sample.toAddress (initialState 0 0) keys results = Ok st1
     ∧ isLoading st1 = false
     ∧ fst (refresh Sample.toAddress Sample.V2_ADDRESS Sample.V3_ADDRESS
              Sample.chain Sample.wallet (initialState 0 0) Sample.world)
       = settled st1
           (assignNextRewards Sample.toAddress st1 nkeys nresults))
  ∧ isLoading
      (fst (refresh Sample.toAddress Sample.V2_ADDRESS Sample.V3_ADDRESS
              Sample.offline Sample.disconnected (initialState 0 0)
              Sample.world))
    = true.
Proof.
  split.
  - apply (proj1 (proj2 (isLoading_cleared_only_by_assignBribes
                           Sample.toAddress Sample.V2_ADDRESS
                           Sample.V3_ADDRESS Sample.Number_))).
    + reflexivity.
    + reflexivity.
  - apply (isLoading_cleared_only_by_assignBribes Sample.toAddress
             Sample.V2_ADDRESS Sample.V3_ADDRESS Sample.Number_).
    left. reflexivity.
Defined.

(** ** Further statements on the sample data *)

Lemma getRewardsPerGauges_positional_witness :
  (snd (getRewardsPerGauges Sample.chain Sample.wallet Sample.V3
          Sample.world)).(gauges) = gauges Sample.world
  ∧ fst (getRewardsPerGauges Sample.chain Sample.wallet Sample.V3
           Sample.world) = Ok [Some [Sample.T1]].
Proof.
  split; [|reflexivity].
  apply (getRewardsPerGauges_positional Sample.chain Sample.wallet Sample.V3
           Sample.world [Some [Sample.T1]]).
  reflexivity.
Defined.

Lemma getRewardsPerUser_lock_step_witness :
  length [JBig 100; JBig 1000; JBig 5] = (3 * length [Sample.key])%nat.
Proof.
  apply (getRewardsPerUser_lock_step Sample.chain Sample.wallet Sample.V2
           Sample.discovery Sample.world [Sample.key]
           [JBig 100; JBig 1000; JBig 5]
           (snd (getRewardsPerUser Sample.chain Sample.wallet Sample.V2
                   Sample.discovery Sample.world))).
  reflexivity.
Defined.

Lemma getNextPeriodRewards_lock_step_witness :
  length [JBig 100; JBig 30] = (2 * length [Sample.key])%nat.
Proof.
  apply (proj2 (getNextPeriodRewards_lock_step Sample.chain Sample.wallet
                  Sample.V3 Sample.discovery Sample.world)
           [Sample.key] [JBig 100; JBig 30]).
  reflexivity.
Defined.

Lemma fetches_share_their_keys_witness : [Sample.key] = [Sample.key].
Proof.
  apply (fetches_share_their_keys Sample.chain Sample.wallet Sample.V2
           Sample.V3 Sample.discovery Sample.world Sample.world
           [Sample.key] [Sample.key]
           [JBig 100; JBig 1000; JBig 5] [JBig 100; JBig 30]);
    reflexivity.
Defined.

Lemma getRewardsPerUser_extends_gauges_witness :
  map gauge
    (gauges (snd (getRewardsPerUser Sample.chain Sample.wallet Sample.V2
                    Sample.discovery Sample.world)))
  = [Sample.G1].
Proof.
  apply (getRewardsPerUser_extends_gauges Sample.chain Sample.wallet
           Sample.V2 Sample.discovery Sample.world).
Defined.

Lemma key_pair_malformed_witness :
  key_pair Sample.toAddress Sample.G1
  = (Sample.G1, "0x0000000000000000000000000000000000000000")
  ∧ key_pair Sample.toAddress
      (allowanceKey Sample.G1 (Sample.T1 +:+ String underscore "x"))
    = (Sample.G1, Sample.T1)
  ∧ key_pair Sample.toAddress
      (allowanceKey Sample.G1 (Sample.T1 +:+ String underscore "x"))
    = key_pair Sample.toAddress (allowanceKey Sample.G1 Sample.T1).
Proof.
  apply (key_pair_malformed Sample.toAddress Sample.G1 Sample.T1 "x");
    reflexivity.
Defined.

Lemma key_pair_allowanceKey_witness :
  key_pair Sample.toAddress Sample.key = (Sample.G1, Sample.T1).
Proof.
  apply (key_pair_allowanceKey Sample.toAddress Sample.G1 Sample.T1);
    reflexivity.
Defined.

Lemma assignBribes_last_passing_key_wins_witness :
  lookup2
    (currentRewards
       (settled Sample.state
          (assignBribes Sample.toAddress Sample.state [Sample.key]
             [JBig 100; JBig 1000; JNull])))
    Sample.G1 Sample.T1 = Some (JBig 100)
  ∧ lookup2
      (claimable
         (settled Sample.state
            (assignBribes Sample.toAddress Sample.state [Sample.key]
               [JBig 100; JBig 1000; JNull])))
      Sample.G1 Sample.T1 = Some JNull.
Proof.
  apply (assignBribes_last_passing_key_wins Sample.toAddress Sample.state
           [Sample.key] [JBig 100; JBig 1000; JNull] _ 0 Sample.key).
  - reflexivity.
  - reflexivity.
  - split; [reflexivity|]. exists 100, 1000. repeat split; reflexivity.
  - intros j' key' Hlt H. destruct j' as [|j']; [lia|discriminate].
Defined.

Lemma assignBribes_throws_on_bad_period_witness :
  assignBribes Sample.toAddress Sample.state [Sample.key]
    [JBig 100; JNull; JBig 5] = Throw
  ∧ settled Sample.state
      (assignBribes Sample.toAddress Sample.state [Sample.key]
         [JBig 100; JNull; JBig 5]) = Sample.state.
Proof.
  apply (assignBribes_throws_on_bad_period Sample.toAddress Sample.state
           [Sample.key] [JBig 100; JNull; JBig 5] 0).
  - discriminate.
  - simpl. lia.
  - reflexivity.
Defined.

Lemma assignBribes_throws_on_short_results_witness :
  assignBribes Sample.toAddress Sample.state [Sample.key] [JBig 100] = Throw
  ∧ settled Sample.state
      (assignBribes Sample.toAddress Sample.state [Sample.key] [JBig 100])
    = Sample.state.
Proof.
  apply (assignBribes_throws_on_short_results Sample.toAddress Sample.state
           [Sample.key] [JBig 100]).
  - discriminate.
  - simpl. lia.
Defined.

Lemma assignNextRewards_entry_iff_witness :
  has_entry
    (nextRewards
       (settled Sample.state
          (assignNextRewards Sample.toAddress Sample.state [Sample.key]
             [JBig 30; JBig 30])))
    Sample.G1 Sample.T1.
Proof.
  apply (assignNextRewards_entry_iff Sample.toAddress Sample.state
           [Sample.key] [JBig 30; JBig 30] _).
  - discriminate.
  - discriminate.
  - reflexivity.
  - exists 0%nat, Sample.key.
    split; [reflexivity|split; [discriminate|reflexivity]].
Defined.

Lemma assignNextRewards_throws_on_missing_value_witness :
  assignNextRewards Sample.toAddress Sample.state [Sample.key]
    [JBig 10; JNull] = Throw
  ∧ settled Sample.state
      (assignNextRewards Sample.toAddress Sample.state [Sample.key]
         [JBig 10; JNull]) = Sample.state.
Proof.
  apply (assignNextRewards_throws_on_missing_value Sample.toAddress
           Sample.state [Sample.key] [JBig 10; JNull] 0 Sample.key).
  - discriminate.
  - reflexivity.
  - discriminate.
  - right. intros [z Hz]. discriminate Hz.
Defined.

Lemma getBribes_five_batches_witness :
  length
    (issued (snd (getBribes Sample.toAddress Sample.V2_ADDRESS
                    Sample.V3_ADDRESS Sample.chain Sample.wallet
                    Sample.state Sample.world)))
  = 5%nat.
Proof.
  rewrite (getBribes_five_batches Sample.toAddress Sample.V2_ADDRESS
             Sample.V3_ADDRESS Sample.chain Sample.wallet Sample.state
             Sample.world).
  - reflexivity.
  - reflexivity.
  - eexists. reflexivity.
  - discriminate.
  - split; [reflexivity|]. intros batch. reflexivity.
Defined.

Lemma getBribes_appends_both_discoveries_witness :
  gauges (snd (getBribes Sample.toAddress Sample.V2_ADDRESS
                 Sample.V3_ADDRESS Sample.chain Sample.wallet Sample.state
                 Sample.world)) !! 0%nat
  = Some {| gauge := Sample.G1; rewardPerGauge := Some [Sample.T1] |}.
Proof.
  apply (getBribes_appends_both_discoveries Sample.toAddress
           Sample.V2_ADDRESS Sample.V3_ADDRESS Sample.chain Sample.wallet
           Sample.state Sample.world 0 Sample.gauge1).
  - reflexivity.
  - eexists. reflexivity.
  - split; [reflexivity|]. intros batch. reflexivity.
  - reflexivity.
Defined.

Lemma refresh_clears_isLoading_witness :
  isLoading
    (fst (refresh Sample.toAddress Sample.V2_ADDRESS Sample.V3_ADDRESS
            Sample.chain Sample.wallet (initialState 0 0) Sample.world))
  = false.
Proof.
  apply (refresh_clears_isLoading Sample.toAddress Sample.V2_ADDRESS
           Sample.V3_ADDRESS Sample.chain Sample.wallet (initialState 0 0)
           Sample.world).
  - reflexivity.
  - eexists. reflexivity.
  - split; [reflexivity|]. intros batch. reflexivity.
  - discriminate.
  - intros g t. exists 100, 1000. repeat split; reflexivity.
Defined.

Lemma refresh_publishes_nextRewards_alone_witness :
  isLoading
    (fst (refresh Sample.toAddress Sample.V2_ADDRESS Sample.V3_ADDRESS
            Sample.chain_without_periods Sample.wallet (initialState 0 0)
            Sample.world))
  = true
  ∧ has_entry
      (nextRewards
         (fst (refresh Sample.toAddress Sample.V2_ADDRESS Sample.V3_ADDRESS
                 Sample.chain_without_periods Sample.wallet (initialState 0 0)
                 Sample.world)))
      Sample.G1 Sample.T1.
Proof.
  destruct (refresh_publishes_nextRewards_alone Sample.toAddress
              Sample.V2_ADDRESS Sample.V3_ADDRESS
              Sample.chain_without_periods Sample.wallet (initialState 0 0)
              Sample.world Sample.G1 Sample.T1)
    as (_ & _ & Hflag & Hnext).
  - reflexivity.
  - eexists. reflexivity.
  - split; [reflexivity|]. intros batch. reflexivity.
  - left. reflexivity.
  - reflexivity.
  - intros g t. split; eexists; reflexivity.
  - split; [exact Hflag|].
    apply (Hnext Sample.G1 Sample.T1). left. reflexivity.
Defined.

Lemma getBribes_idle_does_nothing_witness :
  getBribes Sample.toAddress Sample.V2_ADDRESS Sample.V3_ADDRESS
    Sample.chain Sample.disconnected Sample.state Sample.world
  = (Ok Sample.state, Sample.world).
Proof.
  apply (getBribes_idle_does_nothing Sample.toAddress Sample.V2_ADDRESS
           Sample.V3_ADDRESS Sample.chain Sample.disconnected Sample.state
           Sample.world).
  left. reflexivity.
Defined.


Lemma assignBribes_wipes_when_nothing_passes_witness :
  currentRewards
    (settled Sample.state
       (assignBribes Sample.toAddress Sample.state [Sample.key]
          [JBig 0; JBig 1000; JBig 5])) = ∅
  ∧ claimable
      (settled Sample.state
         (assignBribes Sample.toAddress Sample.state [Sample.key]
            [JBig 0; JBig 1000; JBig 5])) = ∅
  ∧ isLoading
      (settled Sample.state
         (assignBribes Sample.toAddress Sample.state [Sample.key]
            [JBig 0; JBig 1000; JBig 5])) = false.
Proof.
  apply (assignBribes_wipes_when_nothing_passes Sample.toAddress Sample.state
           [Sample.key] [JBig 0; JBig 1000; JBig 5] _).
  - discriminate.
  - discriminate.
  - reflexivity.
  - left. intros j key Hj (_ & rz & pz & Hr & _ & Hpos & _).
    destruct j as [|j]; [|discriminate].
    injection Hr as <-. lia.
Defined.

Lemma refresh_without_multicall_provider_witness :
  refresh Sample.toAddress Sample.V2_ADDRESS Sample.V3_ADDRESS
    Sample.offline Sample.wallet Sample.state Sample.world
  = (Sample.state, Sample.world).
Proof.
  apply (refresh_without_multicall_provider Sample.toAddress
           Sample.V2_ADDRESS Sample.V3_ADDRESS Sample.offline Sample.wallet
           Sample.state Sample.world).
  - reflexivity.
  - eexists. reflexivity.
  - discriminate.
  - reflexivity.
Defined.

Lemma failed_refresh_still_extends_gauges_witness :
  fst (refresh Sample.toAddress Sample.V2_ADDRESS Sample.V3_ADDRESS
         Sample.chain_dropping_fetches Sample.wallet Sample.state
         Sample.world) = Sample.state
  ∧ gauges
      (snd (refresh Sample.toAddress Sample.V2_ADDRESS Sample.V3_ADDRESS
              Sample.chain_dropping_fetches Sample.wallet Sample.state
              Sample.world)) !! 0%nat
    = Some {| gauge := Sample.G1; rewardPerGauge := Some [Sample.T1] |}.
Proof.
  apply (failed_refresh_still_extends_gauges Sample.toAddress
           Sample.V2_ADDRESS Sample.V3_ADDRESS Sample.chain_dropping_fetches
           Sample.wallet Sample.state Sample.world 0 Sample.gauge1).
  - reflexivity.
  - eexists. reflexivity.
  - reflexivity.
  - reflexivity.
  - reflexivity.
  - reflexivity.
  - reflexivity.
Defined.
